(** * UDP versus TCP per-transaction benchmark (tcp_utp_bechmark.py)

    A shallow embedding of the benchmark: the two echo servers, the two
    measuring clients, the summary line and [main].

    Modelling choices, all of them visible in the definitions below:
    - the program runs in a small state-and-exception monad [M] over a
      [World]: a clock in nanoseconds, the descriptors handed out so far, the
      state of the network, and the log of everything the thread did;
    - the network, the operating system and the peers are a state machine
      [net_step] that answers each blocking call with the time it took and
      what it returned; theorems quantify over every such machine unless
      they name the loopback network defined further down;
    - a Python float is modelled by the rational it denotes ([Qc], the
      rationals in lowest terms, so that equal numbers are equal terms);
      sums, differences and quotients are exact, as they are inside the
      statistics module, and only the square root is rounded;
    - [while True] takes a number of iterations as fuel and answers
      [Pending] (the call has not returned) when the fuel is used up. *)

From Stdlib Require Import String Ascii DecimalString DecimalN.
From Stdlib.Strings Require Import Byte.
From Stdlib Require Import ZArith NArith QArith Qcanon Qround Bool Lia.
From Stdlib Require Import List Permutation Sorted.
Import ListNotations.
Local Open Scope list_scope.

Set Implicit Arguments.

(** ** Python values *)

Definition bytes := list byte.

(** [if data:] on a bytes object. *)
Definition truthy (data : bytes) : bool :=
  match data with [] => false | _ :: _ => true end.

(** [b"A" * k]: a negative count gives the empty bytes object. *)
Definition bytes_mul (b : bytes) (k : Z) : bytes :=
  concat (repeat b (Z.to_nat k)).

Definition endpoint := (string * Z)%type.

(** The exceptions that can reach this program.  The first four are the
    subclasses of [ConnectionError]; [SocketTimeout] is [socket.timeout];
    [OSError] stands for every other operating-system error (no route to
    host, message too long, address in use, ...). *)
Inductive exn : Type :=
| ConnectionResetError
| BrokenPipeError
| ConnectionAbortedError
| ConnectionRefusedError
| SocketTimeout
| OSError
| StatisticsError.

Definition is_ConnectionError (e : exn) : bool :=
  match e with
  | ConnectionResetError | BrokenPipeError
  | ConnectionAbortedError | ConnectionRefusedError => true
  | _ => false
  end.

(** How a call ends: it returns, it raises, or it has not returned. *)
Inductive outcome (A : Type) : Type :=
| Ok (a : A)
| Raise (e : exn)
| Pending.
Arguments Ok {A} a.
Arguments Raise {A} e.
Arguments Pending {A}.

Definition is_ok {A} (r : outcome A) : bool :=
  match r with Ok _ => true | _ => false end.

Definition value_or {A} (d : A) (r : outcome A) : A :=
  match r with Ok a => a | _ => d end.

(** ** Defaults (module constants) *)

Definition DEFAULT_HOST : string := "127.0.0.1".
Definition TCP_PORT : Z := 57211.
Definition UDP_PORT : Z := 57212.
Definition DEFAULT_PAYLOAD : Z := 32.
Definition REPEAT : Z := 400.

(** Times are kept in nanoseconds: [PACE = 0.001] s, [TIMEOUT = 2.0] s and
    the [0.3] s that [main] sleeps before measuring. *)
Definition PACE : N := 1000000.
Definition TIMEOUT : N := 2000000000.
Definition READY_DELAY : N := 300000000.

(** The buffer size passed to every [recv] and [recvfrom]. *)
Definition BUFSIZE : N := 65536.

(** The first [n] bytes. *)
Definition take (n : N) (d : bytes) : bytes := firstn (N.to_nat n) d.

Definition drop (n : N) (d : bytes) : bytes := skipn (N.to_nat n) d.

(** A pure computation that may raise. *)
Definition and_then {A B} (r : outcome A) (k : A -> outcome B) : outcome B :=
  match r with
  | Ok a => k a
  | Raise e => Raise e
  | Pending => Pending
  end.

(** ** The statistics module, as far as the benchmark calls it

    [mean], [median] and [pstdev] of the standard library, on floats read as
    exact rationals.  The library itself adds and divides in exact fractions;
    an empty input raises [StatisticsError]. *)

Module stats.

Definition of_nat (n : nat) : Qc := Q2Qc (Z.of_nat n # 1).

Definition sum (data : list Qc) : Qc := fold_right Qcplus 0%Qc data.

Definition leb (x y : Qc) : bool := Qle_bool x y.

Fixpoint insert (x : Qc) (data : list Qc) : list Qc :=
  match data with
  | [] => [x]
  | y :: rest => if leb x y then x :: data else y :: insert x rest
  end.

(** [sorted(data)]: the data in ascending order. *)
Definition sorted (data : list Qc) : list Qc := fold_right insert [] data.

Definition mean (data : list Qc) : outcome Qc :=
  match data with
  | [] => Raise StatisticsError
  | _ :: _ => Ok (sum data / of_nat (length data))%Qc
  end.

Definition median (data : list Qc) : outcome Qc :=
  let data := sorted data in
  let n := length data in
  if Nat.eqb n 0 then Raise StatisticsError
  else if Nat.eqb (n mod 2) 1 then Ok (nth (n / 2) data 0%Qc)
  else
    let i := (n / 2)%nat in
    Ok ((nth (i - 1) data 0 + nth i data 0) / of_nat 2)%Qc.

(** The sum of the squared deviations from the mean. *)
Definition ss (data : list Qc) : Qc :=
  let c := (sum data / of_nat (length data))%Qc in
  sum (map (fun x => (x - c) * (x - c))%Qc data).

(** Rounding to the nearest integer, ties to the even one. *)
Definition round_half_even (q : Q) : Z :=
  let f := Qfloor q in
  match Qcompare (2 * (q - inject_Z f)) 1 with
  | Lt => f
  | Gt => (f + 1)%Z
  | Eq => if Z.even f then f else (f + 1)%Z
  end.

(** The square root as a float: the nearest number with 53 significant
    bits, ties to even (the range of the exponent is not bounded).
    With [s = q / 4^e] in [[2^104, 2^106)], the integer part [a] of the root
    of [s] has 53 bits, and the root lies above the midpoint [a + 1/2]
    exactly when [4 s] lies above [(2 a + 1)^2]. *)
Definition float_sqrt (q : Qc) : Qc :=
  match Qnum q with
  | Zpos n =>
      let l := (Z.log2 (Zpos n) - Z.log2 (Zpos (Qden q)))%Z in
      let e0 := ((l - 105) / 2)%Z in
      let e := if Qle_bool (inject_Z (2 ^ 106)%Z) (q / Qpower 4 e0)
               then (e0 + 1)%Z else e0 in
      let s := (q / Qpower 4 e)%Q in
      let a := Z.sqrt (Qfloor s) in
      let m := match Qcompare (4 * s) (inject_Z ((2 * a + 1) * (2 * a + 1))%Z) with
               | Lt => a
               | Gt => (a + 1)%Z
               | Eq => if Z.even a then a else (a + 1)%Z
               end in
      Q2Qc (inject_Z m * Qpower 2 e)
  | _ => 0%Qc
  end.

Definition pstdev (data : list Qc) : outcome Qc :=
  match data with
  | [] => Raise StatisticsError
  | _ :: _ => Ok (float_sqrt (ss data / of_nat (length data))%Qc)
  end.

End stats.

(** ** Formatting *)

Definition digit (z : Z) : ascii := ascii_of_nat (48 + Z.to_nat (z mod 10)%Z).

(** [str(n)] for a length. *)
Definition str_nat (n : nat) : string := NilZero.string_of_uint (Nat.to_uint n).

(** The number of decimal digits of a positive integer. *)
Definition digits10 (p : positive) : Z :=
  Z.of_nat (Decimal.nb_digits (Pos.to_uint p)).

Definition pow10 (x : Z) : Q := Qpower 10 x.

(** The exponent field of [%e]: a sign and at least two digits. *)
Definition exponent_field (x : Z) : string :=
  let sign := if (x <? 0)%Z then "-"%string else "+"%string in
  let a := Z.abs x in
  let ds := if (a <? 10)%Z then String (digit 0%Z) (String (digit a) EmptyString)
            else NilZero.string_of_uint (N.to_uint (Z.to_N a)) in
  (sign ++ ds)%string.

(** [format(q, ".6e")]: one digit, a point, six digits, [e] and the
    exponent; the seven significant digits are those of the exact value
    rounded to nearest, ties to even. *)
Definition format_e6 (q : Qc) : string :=
  let mantissa (m : Z) : string :=
    String (digit (m / 1000000)%Z) (String "."
      (String (digit (m / 100000)%Z) (String (digit (m / 10000)%Z)
      (String (digit (m / 1000)%Z) (String (digit (m / 100)%Z)
      (String (digit (m / 10)%Z) (String (digit m) EmptyString))))))) in
  let body (n d : positive) : string :=
    let a := (Zpos n # d) in
    let x0 := (digits10 n - digits10 d)%Z in
    let x := if Qle_bool (pow10 x0) a then x0 else (x0 - 1)%Z in
    let m := stats.round_half_even (a * pow10 (6 - x)) in
    if (m =? 10000000)%Z
    then (mantissa 1000000%Z ++ "e" ++ exponent_field (x + 1)%Z)%string
    else (mantissa m ++ "e" ++ exponent_field x)%string in
  match Qnum q with
  | Z0 => "0.000000e+00"%string
  | Zpos n => body n (Qden q)
  | Zneg n => ("-" ++ body n (Qden q))%string
  end.

(** ** The summary line *)

Definition summarize (name : string) (arr : list Qc) : outcome string :=
  and_then (stats.mean arr) (fun mean =>
  and_then (stats.median arr) (fun med =>
  and_then (stats.pstdev arr) (fun stdev =>
  Ok (name ++ ": mean=" ++ format_e6 mean ++ "s, median=" ++ format_e6 med
           ++ "s, std=" ++ format_e6 stdev ++ "s, n=" ++ str_nat (length arr))%string))).

(** ** Sockets, calls and the log *)

Inductive sock_kind : Type := SOCK_STREAM | SOCK_DGRAM.

Inductive sock_option : Type := SO_REUSEADDR | TCP_NODELAY.

Record socket : Type := mkSocket {
  fd : nat;
  kind : sock_kind;
  timeout : option N
}.

(** The calls that leave the process and are answered by the network. *)
Inductive call : Type :=
| Bind (s : nat) (a : endpoint)
| Listen (s : nat) (backlog : nat)
| Accept (s : nat)
| Connect (s : nat) (a : endpoint)
| SendAll (s : nat) (d : bytes)
| Recv (s : nat) (bufsize : N)
| SendTo (s : nat) (d : bytes) (a : endpoint)
| RecvFrom (s : nat) (bufsize : N)
| Close (s : nat)
| Sleep (ns : N).

(** What a call that came back brought: data and a peer address (each call
    reads the part it needs), or an exception. *)
Inductive answer : Type :=
| Returns (d : bytes) (peer : endpoint)
| Fails (e : exn).

(** The network's answer: after [elapsed] nanoseconds, or never. *)
Inductive reply : Type :=
| Reply (elapsed : N) (a : answer)
| Never.

(** The answer of a call that returns nothing of interest. *)
Definition nothing : answer := Returns [] (EmptyString, 0%Z).

Inductive server_id : Type := TcpServer | UdpServer.

Inductive action : Type :=
| Opened (s : nat) (k : sock_kind)
| TimeoutSet (s : nat) (t : N)
| OptionSet (s : nat) (o : sock_option)
| Did (c : call) (a : answer)
| Clock (t : Qc)
| Spawned (srv : server_id) (a : endpoint)
| Printed (line : string)
| Boxplot (tcp udp : list Qc) (payload_size : nat)
| Barplot (means stds : list Qc)
| Shown.

(** A log entry: the time at which the action completed, and the action. *)
Definition event := (N * action)%type.

Section Program.

(** The network as the program meets it. *)
Variable NetSt : Type.
Variable net_step : NetSt -> call -> reply * NetSt.

Record World : Type := mkWorld {
  now : N;
  next_fd : nat;
  net : NetSt;
  trace : list event
}.

Definition M (A : Type) : Type := World -> outcome A * World.

Definition ret {A} (a : A) : M A := fun w => (Ok a, w).

Definition bind {A B} (m : M A) (k : A -> M B) : M B :=
  fun w =>
    match m w with
    | (Ok a, w') => k a w'
    | (Raise e, w') => (Raise e, w')
    | (Pending, w') => (Pending, w')
    end.

Definition raise {A} (e : exn) : M A := fun w => (Raise e, w).

(** [try: body  except <class>: handler] *)
Definition try_except {A} (body : M A) (catches : exn -> bool)
    (handler : M A) : M A :=
  fun w =>
    match body w with
    | (Raise e, w') => if catches e then handler w' else (Raise e, w')
    | r => r
    end.

(** [try: body  finally: cleanup], the shape of a [with] block: the cleanup
    runs when the body returns or raises, not while it is still running. *)
Definition finally {A} (body : M A) (cleanup : M unit) : M A :=
  fun w =>
    match body w with
    | (Ok a, w') =>
        match cleanup w' with
        | (Ok _, w'') => (Ok a, w'')
        | (Raise e, w'') => (Raise e, w'')
        | (Pending, w'') => (Pending, w'')
        end
    | (Raise e, w') =>
        match cleanup w' with
        | (Ok _, w'') => (Raise e, w'')
        | (Raise e', w'') => (Raise e', w'')
        | (Pending, w'') => (Pending, w'')
        end
    | (Pending, w') => (Pending, w')
    end.

Definition log (a : action) : M unit :=
  fun w => (Ok tt, mkWorld (now w) (next_fd w) (net w) (trace w ++ [(now w, a)])).

(** What the caller of [recv(bufsize)] or [recvfrom(bufsize)] gets of the
    data that arrived: never more than [bufsize] bytes (the rest of a
    datagram is discarded). *)
Definition clip (c : call) (a : answer) : answer :=
  match c, a with
  | Recv _ n, Returns d p => Returns (take n d) p
  | RecvFrom _ n, Returns d p => Returns (take n d) p
  | _, _ => a
  end.

Definition outcome_of (a : answer) : outcome answer :=
  match a with Returns _ _ => Ok a | Fails e => Raise e end.

(** The world after a call that came back at time [t]. *)
Definition after (w : World) (t : N) (st : NetSt) (a : action) : World :=
  mkWorld t (next_fd w) st (trace w ++ [(t, a)]).

(** A blocking call on behalf of a socket whose timeout is [tmo]: the
    network's answer is taken if it comes before the timeout; otherwise
    [socket.timeout] is raised when the timeout expires.  Without a timeout
    the call waits for as long as it takes. *)
Definition blocking (tmo : option N) (c : call) : M answer :=
  fun w =>
    let '(r, st) := net_step (net w) c in
    let arrive (el : N) (a : answer) :=
      (outcome_of (clip c a), after w (now w + el) st (Did c (clip c a))) in
    let expire (limit : N) :=
      (Raise SocketTimeout,
       after w (now w + limit) st (Did c (Fails SocketTimeout))) in
    match r, tmo with
    | Reply el a, None => arrive el a
    | Reply el a, Some limit => if (el <? limit)%N then arrive el a else expire limit
    | Never, Some limit => expire limit
    | Never, None => (Pending, mkWorld (now w) (next_fd w) st (trace w))
    end.

Definition payload_of (a : answer) : bytes :=
  match a with Returns d _ => d | Fails _ => [] end.

Definition peer_of (a : answer) : endpoint :=
  match a with Returns _ p => p | Fails _ => (EmptyString, 0%Z) end.

Notation "x <- c ;; k" := (bind c (fun x => k))
  (at level 61, c at next level, right associativity).
Notation "c ;;; k" := (bind c (fun _ => k))
  (at level 61, right associativity).

(** *** The socket module *)

Definition socket_new (k : sock_kind) : M socket :=
  fun w =>
    let s := next_fd w in
    (Ok (mkSocket s k None),
     mkWorld (now w) (S s) (net w) (trace w ++ [(now w, Opened s k)])).

Definition settimeout (s : socket) (t : N) : M socket :=
  log (TimeoutSet (fd s) t) ;;; ret (mkSocket (fd s) (kind s) (Some t)).

Definition setsockopt (s : socket) (o : sock_option) : M unit :=
  log (OptionSet (fd s) o).

Definition sock_bind (s : socket) (a : endpoint) : M unit :=
  _ <- blocking (timeout s) (Bind (fd s) a) ;; ret tt.

Definition sock_listen (s : socket) (backlog : nat) : M unit :=
  _ <- blocking (timeout s) (Listen (fd s) backlog) ;; ret tt.

(** [accept] returns a new socket for the connection and the peer address;
    the new socket has no timeout. *)
Definition sock_accept (s : socket) : M (socket * endpoint) :=
  a <- blocking (timeout s) (Accept (fd s)) ;;
  fun w =>
    let c := next_fd w in
    (Ok (mkSocket c SOCK_STREAM None, peer_of a),
     mkWorld (now w) (S c) (net w) (trace w ++ [(now w, Opened c SOCK_STREAM)])).

Definition sock_connect (s : socket) (a : endpoint) : M unit :=
  _ <- blocking (timeout s) (Connect (fd s) a) ;; ret tt.

Definition sock_sendall (s : socket) (d : bytes) : M unit :=
  _ <- blocking (timeout s) (SendAll (fd s) d) ;; ret tt.

(** [recv(bufsize)] *)
Definition sock_recv (s : socket) (bufsize : N) : M bytes :=
  a <- blocking (timeout s) (Recv (fd s) bufsize) ;;
  ret (payload_of a).

Definition sock_sendto (s : socket) (d : bytes) (a : endpoint) : M unit :=
  _ <- blocking (timeout s) (SendTo (fd s) d a) ;; ret tt.

(** [recvfrom(bufsize)] *)
Definition sock_recvfrom (s : socket) (bufsize : N) : M (bytes * endpoint) :=
  a <- blocking (timeout s) (RecvFrom (fd s) bufsize) ;;
  ret (payload_of a, peer_of a).

(** Closing does not raise and is not subject to the socket's timeout. *)
Definition sock_close (s : socket) : M unit :=
  fun w =>
    let '(r, st) := net_step (net w) (Close (fd s)) in
    let t := match r with Reply el _ => (now w + el)%N | Never => now w end in
    (Ok tt, after w t st (Did (Close (fd s)) nothing)).

(** [with s: body] *)
Definition with_socket {A} (s : socket) (body : M A) : M A :=
  finally body (sock_close s).

(** *** The time module *)

(** [perf_counter()]: the clock, in seconds. *)
Definition seconds (t : N) : Qc := Q2Qc (Z.of_N t # 1000000000).

Definition perf_counter : M Qc :=
  fun w =>
    let t := seconds (now w) in
    (Ok t, mkWorld (now w) (next_fd w) (net w) (trace w ++ [(now w, Clock t)])).

(** [time.sleep(d)] suspends for at least [d] and always returns: the
    network says by how much longer it takes. *)
Definition sleep (ns : N) : M unit :=
  fun w =>
    let '(r, st) := net_step (net w) (Sleep ns) in
    let extra := match r with Reply el _ => el | Never => 0%N end in
    (Ok tt, after w (now w + ns + extra) st (Did (Sleep ns) nothing)).

Definition lift {A} (r : outcome A) : M A := fun w => (r, w).

(** [while True: body]: [fuel] iterations, after which the loop is still
    running. *)
Fixpoint forever (fuel : nat) (body : M unit) : M unit :=
  match fuel with
  | O => fun w => (Pending, w)
  | S k => body ;;; forever k body
  end.

(** ** Servers *)

(** One accepted connection: read once, echo, close. *)
Definition tcp_handle (conn : socket) : M unit :=
  with_socket conn
    (data <- sock_recv conn BUFSIZE ;;
     if truthy data then sock_sendall conn data else ret tt).

(** One turn of the accept loop. *)
Definition tcp_serve_one (s : socket) : M unit :=
  ca <- sock_accept s ;;
  try_except (tcp_handle (fst ca)) is_ConnectionError (ret tt).

Definition tcp_transaction_server (host : string) (port : Z) (fuel : nat)
    : M unit :=
  s <- socket_new SOCK_STREAM ;;
  with_socket s
    (setsockopt s SO_REUSEADDR ;;;
     sock_bind s (host, port) ;;;
     sock_listen s 128 ;;;
     forever fuel (tcp_serve_one s)).

(** One turn of the datagram loop. *)
Definition udp_serve_one (s : socket) : M unit :=
  da <- sock_recvfrom s BUFSIZE ;;
  let '(data, addr) := da in
  if truthy data then sock_sendto s data addr else ret tt.

Definition udp_echo_server (host : string) (port : Z) (fuel : nat) : M unit :=
  s <- socket_new SOCK_DGRAM ;;
  with_socket s
    (setsockopt s SO_REUSEADDR ;;;
     sock_bind s (host, port) ;;;
     forever fuel (udp_serve_one s)).

(** ** Clients *)

(** [for _ in range(n)] of [measure_udp_transactions], with the list
    [durations] built so far. *)
Fixpoint udp_loop (c : socket) (host : string) (port : Z) (payload : bytes)
    (n : nat) (durations : list Qc) : M (list Qc) :=
  match n with
  | O => ret durations
  | S k =>
      t0 <- perf_counter ;;
      sock_sendto c payload (host, port) ;;;
      _ <- sock_recvfrom c BUFSIZE ;;
      t1 <- perf_counter ;;
      let dt := (t1 - t0)%Qc in
      let durations := durations ++ [dt] in
      sleep PACE ;;;
      udp_loop c host port payload k durations
  end.

Definition measure_udp_transactions (host : string) (port : Z)
    (payload : bytes) (n : Z) : M (list Qc) :=
  c <- socket_new SOCK_DGRAM ;;
  with_socket c
    (c <- settimeout c TIMEOUT ;;
     udp_loop c host port payload (Z.to_nat n) []).

(** [for _ in range(n)] of [measure_tcp_transactions]. *)
Fixpoint tcp_loop (host : string) (port : Z) (payload : bytes)
    (n : nat) (durations : list Qc) : M (list Qc) :=
  match n with
  | O => ret durations
  | S k =>
      t0 <- perf_counter ;;
      c <- socket_new SOCK_STREAM ;;
      with_socket c
        (c <- settimeout c TIMEOUT ;;
         setsockopt c TCP_NODELAY ;;;
         sock_connect c (host, port) ;;;
         sock_sendall c payload ;;;
         _ <- sock_recv c BUFSIZE ;;
         ret tt) ;;;
      t1 <- perf_counter ;;
      let dt := (t1 - t0)%Qc in
      let durations := durations ++ [dt] in
      sleep PACE ;;;
      tcp_loop host port payload k durations
  end.

Definition measure_tcp_transactions (host : string) (port : Z)
    (payload : bytes) (n : Z) : M (list Qc) :=
  tcp_loop host port payload (Z.to_nat n) [].

(** ** Plots *)

Definition plot_results (tcp udp : list Qc) (payload_size : nat) : M unit :=
  log (Boxplot tcp udp payload_size) ;;;
  m_tcp <- lift (stats.mean tcp) ;;
  m_udp <- lift (stats.mean udp) ;;
  s_tcp <- lift (stats.pstdev tcp) ;;
  s_udp <- lift (stats.pstdev udp) ;;
  log (Barplot [m_tcp; m_udp] [s_tcp; s_udp]) ;;;
  log Shown.

(** ** Main

    The arguments are what argparse hands over.  The two server threads
    run beside this one: starting them is logged, and what they do reaches
    this thread through the network. *)
Definition main (host : string) (payload_size repeat : Z) : M unit :=
  let payload := bytes_mul ["A"%byte] payload_size in
  log (Spawned TcpServer (host, TCP_PORT)) ;;;
  log (Spawned UdpServer (host, UDP_PORT)) ;;;
  sleep READY_DELAY ;;;
  tcp_times <- measure_tcp_transactions host TCP_PORT payload repeat ;;
  udp_times <- measure_udp_transactions host UDP_PORT payload repeat ;;
  line <- lift (summarize "TCP per-transaction" tcp_times) ;;
  log (Printed line) ;;;
  line <- lift (summarize "UDP per-transaction" udp_times) ;;
  log (Printed line) ;;;
  plot_results tcp_times udp_times (length payload).

End Program.

Arguments mkWorld {NetSt} now next_fd net trace.

Declare Scope prog_scope.
Delimit Scope prog_scope with prog.
Notation "x <- c ;; k" := (bind c (fun x => k))
  (at level 61, c at next level, right associativity) : prog_scope.

(** ** A loopback network

    The network on which the benchmark is meant to run: both servers are
    up, nothing is lost, and every call takes [latency] nanoseconds.  The
    servers are not re-described here: each turn of their loops is the
    server code above, run on the server's own world against the [Wire]
    that connects it to the client. *)

(** The wire as a server sees it. *)
Record Wire : Type := mkWire {
  arriving : list bytes;          (* chunks or datagrams waiting to be read *)
  hung_up : bool;                 (* the client has closed its end *)
  leaving : list bytes;           (* what the server has written, in order *)
  far_end : endpoint              (* the client's address *)
}.

Definition wire_step (st : Wire) (c : call) : reply * Wire :=
  match c with
  | Accept _ => (Reply 0 (Returns [] (far_end st)), st)
  | Recv _ n =>
      match arriving st with
      | chunk :: rest =>
          let left := drop n chunk in
          (Reply 0 (Returns chunk (far_end st)),
           mkWire (if truthy left then left :: rest else rest)
                  (hung_up st) (leaving st) (far_end st))
      | [] => if hung_up st then (Reply 0 (Returns [] (far_end st)), st)
              else (Never, st)
      end
  | RecvFrom _ _ =>
      match arriving st with
      | dgram :: rest =>
          (Reply 0 (Returns dgram (far_end st)),
           mkWire rest (hung_up st) (leaving st) (far_end st))
      | [] => (Never, st)
      end
  | SendAll _ d | SendTo _ d _ =>
      (Reply 0 nothing,
       mkWire (arriving st) (hung_up st) (leaving st ++ [d]) (far_end st))
  | Bind _ _ | Listen _ _ | Connect _ _ | Close _ | Sleep _ =>
      (Reply 0 nothing, st)
  end.

Definition endpoint_eqb (a b : endpoint) : bool :=
  (String.eqb (fst a) (fst b) && Z.eqb (snd a) (snd b))%bool.

(** The largest payload of a UDP datagram over IPv4. *)
Definition UDP_MAX : N := 65507.

Record Link : Type := mkLink {
  server_host : string;
  client_addr : endpoint;
  latency : N;
  segment : positive   (* the most bytes one read of a stream finds *)
}.

Record Loopback : Type := mkLoopback {
  tcp_thread : World Wire;        (* the stream server, in its accept loop *)
  udp_thread : World Wire;        (* the datagram server, in its loop *)
  connected : option nat;         (* the client's connected stream socket *)
  upstream : bytes;               (* sent on it, not yet read by the server *)
  served : bool;                  (* the server has finished that connection *)
  downstream : bytes;             (* echoed on it, not yet read by the client *)
  echoes : list bytes             (* datagrams on their way to the client *)
}.

(** The listening sockets: each server opens one socket, descriptor 0. *)
Definition listener (k : sock_kind) : socket := mkSocket 0 k None.

(** A server thread right after its setup, about to enter its loop. *)
Definition tcp_thread0 (l : Link) : World Wire :=
  snd (tcp_transaction_server wire_step (server_host l) TCP_PORT 0
         (mkWorld 0%N 0 (mkWire [] false [] (client_addr l)) [])).

Definition udp_thread0 (l : Link) : World Wire :=
  snd (udp_echo_server wire_step (server_host l) UDP_PORT 0
         (mkWorld 0%N 0 (mkWire [] false [] (client_addr l)) [])).

Definition loopback0 (l : Link) : Loopback :=
  mkLoopback (tcp_thread0 l) (udp_thread0 l) None [] false [] [].

(** Hand [chunks] to a server thread and let it take one turn of its loop. *)
Definition turn (serve_one : M Wire unit) (l : Link) (chunks : list bytes)
    (hung : bool) (th : World Wire) : World Wire :=
  snd (serve_one
         (mkWorld (now th) (next_fd th)
                  (mkWire chunks hung [] (client_addr l)) (trace th))).

Definition chunk_of (l : Link) (d : bytes) : bytes :=
  take (Npos (segment l)) d.

Definition loopback_step (l : Link) (st : Loopback) (c : call)
    : reply * Loopback :=
  let ok := Reply (latency l) nothing in
  match c with
  | Connect s a =>
      if endpoint_eqb a (server_host l, TCP_PORT)
      then (ok, mkLoopback (tcp_thread st) (udp_thread st) (Some s) [] false []
                           (echoes st))
      else (Reply (latency l) (Fails ConnectionRefusedError), st)
  | SendAll _ d =>
      (ok, mkLoopback (tcp_thread st) (udp_thread st) (connected st)
                      (upstream st ++ d) (served st) (downstream st) (echoes st))
  | Recv _ n =>
      if served st then
        let d := chunk_of l (downstream st) in
        (Reply (latency l) (Returns d (server_host l, TCP_PORT)),
         mkLoopback (tcp_thread st) (udp_thread st) (connected st) (upstream st)
                    true (drop (N.min n (Npos (segment l))) (downstream st))
                    (echoes st))
      else if truthy (upstream st) then
        let th := turn (tcp_serve_one wire_step (listener SOCK_STREAM)) l
                       [chunk_of l (upstream st)] false (tcp_thread st) in
        let back := concat (leaving (net th)) in
        let d := chunk_of l back in
        (Reply (latency l) (Returns d (server_host l, TCP_PORT)),
         mkLoopback th (udp_thread st) (connected st) [] true
                    (drop (N.min n (Npos (segment l))) back) (echoes st))
      else (Never, st)
  | Close s =>
      match connected st with
      | Some s' =>
          if Nat.eqb s s' then
            let th := if served st then tcp_thread st
                      else turn (tcp_serve_one wire_step (listener SOCK_STREAM)) l
                             (if truthy (upstream st)
                              then [chunk_of l (upstream st)] else [])
                             true (tcp_thread st) in
            (ok, mkLoopback th (udp_thread st) None [] false [] (echoes st))
          else (ok, st)
      | None => (ok, st)
      end
  | SendTo _ d a =>
      if (UDP_MAX <? N.of_nat (length d))%N
      then (Reply (latency l) (Fails OSError), st)
      else if endpoint_eqb a (server_host l, UDP_PORT) then
        let th := turn (udp_serve_one wire_step (listener SOCK_DGRAM)) l
                       [d] false (udp_thread st) in
        (ok, mkLoopback (tcp_thread st) th (connected st) (upstream st)
                        (served st) (downstream st)
                        (echoes st ++ leaving (net th)))
      else (ok, st)
  | RecvFrom _ _ =>
      match echoes st with
      | d :: rest =>
          (Reply (latency l) (Returns d (server_host l, UDP_PORT)),
           mkLoopback (tcp_thread st) (udp_thread st) (connected st)
                      (upstream st) (served st) (downstream st) rest)
      | [] => (Never, st)
      end
  | Sleep _ => (Reply 0 nothing, st)
  | Bind _ _ | Listen _ _ | Accept _ => (Reply (latency l) (Fails OSError), st)
  end.

(** The world in which [main] starts on the loopback network. *)
Definition boot (l : Link) : World Loopback := mkWorld 0%N 3 (loopback0 l) [].


(** ** Vocabulary of the statements *)

(** *** The shape of the summary line *)

Definition is_digit (c : ascii) : bool :=
  (Nat.leb 48 (nat_of_ascii c) && Nat.leb (nat_of_ascii c) 57)%bool.

Fixpoint all_digits (s : string) : bool :=
  match s with
  | EmptyString => true
  | String c r => (is_digit c && all_digits r)%bool
  end.

(** [d.dddddde+dd]: one digit, a point, six digits, [e], a sign and at
    least two digits. *)
Definition is_sci_unsigned (s : string) : bool :=
  match s with
  | String d0 (String p (String d1 (String d2 (String d3 (String d4
      (String d5 (String d6 (String e (String sg ex))))))))) =>
      (is_digit d0 && Ascii.eqb p "." && is_digit d1 && is_digit d2
       && is_digit d3 && is_digit d4 && is_digit d5 && is_digit d6
       && Ascii.eqb e "e" && (Ascii.eqb sg "+" || Ascii.eqb sg "-")
       && Nat.leb 2 (String.length ex) && all_digits ex)%bool
  | _ => false
  end.

(** A number in scientific notation with six decimals, as [.6e] prints it. *)
Definition is_sci (s : string) : bool :=
  match s with
  | String c u => if Ascii.eqb c "-" then is_sci_unsigned u else is_sci_unsigned s
  | EmptyString => false
  end.

(** The summary line as the specification writes it, with a space between
    each number and its unit. *)
Definition spaced_line (label m md sd : string) (n : nat) : string :=
  (label ++ ": mean=" ++ m ++ " s, median=" ++ md ++ " s, std=" ++ sd
         ++ " s, n=" ++ str_nat n)%string.

(** The summary line as [summarize] builds it. *)
Definition summary_line (label m md sd : string) (n : nat) : string :=
  (label ++ ": mean=" ++ m ++ "s, median=" ++ md ++ "s, std=" ++ sd
         ++ "s, n=" ++ str_nat n)%string.

Fixpoint no_space (s : string) : bool :=
  match s with
  | EmptyString => true
  | String c r => (negb (Ascii.eqb c " ") && no_space r)%bool
  end.

(** The part of a string before its first space. *)
Fixpoint upto_space (s : string) : string :=
  match s with
  | EmptyString => EmptyString
  | String c r => if Ascii.eqb c " " then EmptyString else String c (upto_space r)
  end.

(** A millisecond, as a duration. *)
Definition ms (k : Z) : Qc := Q2Qc (k # 1000).

(** *** Reading the log *)

(** The exceptions that calls raised, in order. *)
Definition failures (evs : list event) : list exn :=
  flat_map (fun ev => match snd ev with Did _ (Fails e) => [e] | _ => [] end) evs.

(** The values [perf_counter] returned, in order. *)
Definition clock_readings (evs : list event) : list Qc :=
  flat_map (fun ev => match snd ev with Clock t => [t] | _ => [] end) evs.

(** The times at which [perf_counter] was read, in order. *)
Definition clock_stamps (evs : list event) : list N :=
  flat_map (fun ev => match snd ev with Clock _ => [fst ev] | _ => [] end) evs.

(** The readings come in pairs, the start and the end of a transaction:
    the spans are the differences within the pairs. *)
Fixpoint spans (ts : list Qc) : list Qc :=
  match ts with
  | a :: b :: rest => (b - a)%Qc :: spans rest
  | _ => []
  end.

(** Transactions between [free] and [hi] whose start and end times are
    listed in pairs: each ends no earlier than it starts, and each starts no
    earlier than the end of the one before plus the pacing delay. *)
Fixpoint paced (free : N) (ts : list N) (hi : N) : Prop :=
  match ts with
  | [] => (free <= hi)%N
  | [s] => (free <= s <= hi)%N
  | s :: e :: rest => (free <= s <= e)%N /\ paced (e + PACE) rest hi
  end.

(** How long an action takes at least. *)
Definition least_duration (a : action) : N :=
  match a with Did (Sleep ns) _ => ns | _ => 0%N end.

(** The log of a stretch of execution that starts at [lo] and ends at [hi]:
    the entries are in the order of their times, and a sleep ends no earlier
    than its duration after the entry before it. *)
Fixpoint timeline (lo : N) (evs : list event) (hi : N) : Prop :=
  match evs with
  | [] => (lo <= hi)%N
  | (t, a) :: rest => (lo + least_duration a <= t)%N /\ timeline t rest hi
  end.

(** The exception an outcome carries, as a list. *)
Definition raised {A} (r : outcome A) : list exn :=
  match r with Raise e => [e] | _ => [] end.

Definition printed (evs : list event) : list string :=
  flat_map (fun ev => match snd ev with Printed s => [s] | _ => [] end) evs.

Definition is_plot (ev : event) : bool :=
  match snd ev with Boxplot _ _ _ | Barplot _ _ | Shown => true | _ => false end.

(** Calls on a stream socket and calls on a datagram socket. *)
Definition is_stream_call (ev : event) : bool :=
  match snd ev with
  | Did (Connect _ _) _ | Did (SendAll _ _) _ | Did (Recv _ _) _ => true
  | Opened _ SOCK_STREAM => true
  | _ => false
  end.

Definition is_dgram_call (ev : event) : bool :=
  match snd ev with
  | Did (SendTo _ _ _) _ | Did (RecvFrom _ _) _ => true
  | Opened _ SOCK_DGRAM => true
  | _ => false
  end.

(** What a measuring client may log. *)
Definition is_client_event (ev : event) : bool :=
  match snd ev with
  | Opened _ _ | TimeoutSet _ _ | OptionSet _ _ | Did _ _ | Clock _ => true
  | _ => false
  end.

(** The data that receive calls returned, in order. *)
Definition received (evs : list event) : list bytes :=
  flat_map (fun ev => match snd ev with
                      | Did (Recv _ _) (Returns d _)
                      | Did (RecvFrom _ _) (Returns d _) => [d]
                      | _ => []
                      end) evs.

(** The data handed to send calls, in order. *)
Definition sent (evs : list event) : list bytes :=
  flat_map (fun ev => match snd ev with
                      | Did (SendAll _ d) _ | Did (SendTo _ d _) _ => [d]
                      | _ => []
                      end) evs.

(** The descriptors of the sockets opened and of the sockets closed, in
    order. *)
Definition opened (evs : list event) : list nat :=
  flat_map (fun ev => match snd ev with Opened s _ => [s] | _ => [] end) evs.

Definition closed (evs : list event) : list nat :=
  flat_map (fun ev => match snd ev with Did (Close s) _ => [s] | _ => [] end) evs.




(** A receive call that gave up on its timeout. *)
Definition is_receive_timeout (ev : event) : bool :=
  match snd ev with
  | Did (Recv _ _) (Fails SocketTimeout)
  | Did (RecvFrom _ _) (Fails SocketTimeout) => true
  | _ => false
  end.

(** The entries a run added to the log of [w]. *)
Definition new_events {NetSt} (w w' : World NetSt) : list event :=
  skipn (length (trace w)) (trace w').

(** A world in which a blocking call is still waiting. *)
Definition stalled {NetSt} (w : World NetSt) (st : NetSt) : World NetSt :=
  mkWorld (now w) (next_fd w) st (trace w).

(** What the stream client and the datagram client may log. *)
Definition tcp_event (ev : event) : bool :=
  (is_client_event ev && negb (is_dgram_call ev))%bool.

Definition udp_event (ev : event) : bool :=
  (is_client_event ev && negb (is_stream_call ev))%bool.

(** What the log of a measuring loop looks like: [n] transactions asked
    for, [ds] the durations appended before the loop was entered, [lo] and
    [hi] the times at which it starts and ends, [K] the entries it may
    log. *)
Record client_run (K : event -> bool) (n : nat) (ds : list Qc) (lo : N)
    (evs : list event) (r : outcome (list Qc)) (hi : N) : Prop := mk_client_run {
  run_timeline : timeline lo evs hi;
  run_failures : failures evs = raised r;
  run_paced : paced lo (clock_stamps evs) hi;
  run_events : forallb K evs = true;
  run_pending : r <> Pending;
  run_raised : forall e, r = Raise e -> Nat.odd (length (clock_stamps evs)) = true;
  run_result : forall ds', r = Ok ds' ->
    ds' = ds ++ spans (clock_readings evs)
    /\ length (spans (clock_readings evs)) = n
    /\ length (clock_stamps evs) = (2 * n)%nat
    /\ Forall (Qcle 0) (spans (clock_readings evs));
  run_received : length (received evs) = length (spans (clock_readings evs))
}.

(** The outcome of a call whose answer is [a], when a returned answer is
    read through [f]. *)
Definition result_of {A} (f : answer -> A) (a : answer) : outcome A :=
  match a with Returns _ _ => Ok (f a) | Fails e => Raise e end.

(** A call of the socket module in one piece: what it returns and the world
    it leaves, from the answer of the network. *)
Definition answered {NetSt} (net_step : NetSt -> call -> reply * NetSt) {A}
    (f : answer -> A) (tmo : option N) (c : call) (w : World NetSt)
    : outcome A * World NetSt :=
  let timed_out (limit : N) (st : NetSt) :=
    (@Raise A SocketTimeout,
     after w (now w + limit) st (Did c (Fails SocketTimeout))) in
  match net_step (net w) c, tmo with
  | (Reply el a, st), None =>
      (result_of f (clip c a), after w (now w + el) st (Did c (clip c a)))
  | (Reply el a, st), Some limit =>
      if (el <? limit)%N
      then (result_of f (clip c a), after w (now w + el) st (Did c (clip c a)))
      else timed_out limit st
  | (Never, st), Some limit => timed_out limit st
  | (Never, st), None => (Pending, stalled w st)
  end.

(** [runs m w P]: the program [m], started in [w], adds to the log some
    entries [evs] of which, with the outcome and the time at the end, [P]
    holds. *)
Definition runs {NetSt A} (m : M NetSt A) (w : World NetSt)
    (P : list event -> outcome A -> N -> Prop) : Prop :=
  let '(r, w') := m w in
  exists evs, trace w' = trace w ++ evs /\ P evs r (now w').

(** What the log of [main] looks like, from the time [lo] at which it
    starts to the time [hi] at which it ends with outcome [r]: the two
    threads are started, the main thread sleeps, the stream client runs,
    then, if that one returned, the datagram client, then, if that one
    returned too, the summaries are printed and the plots drawn. *)
Definition tail_shape (t : N) (size : nat) (tcp_times udp_times : list Qc)
    (tail : list event) (r : outcome unit) : Prop :=
  (tcp_times = [] /\ tail = [] /\ r = Raise StatisticsError)
  \/ (exists l1 l2 mt mu st su,
        summarize "TCP per-transaction" tcp_times = Ok l1
        /\ summarize "UDP per-transaction" udp_times = Ok l2
        /\ stats.mean tcp_times = Ok mt /\ stats.mean udp_times = Ok mu
        /\ stats.pstdev tcp_times = Ok st /\ stats.pstdev udp_times = Ok su
        /\ tail = [(t, Printed l1); (t, Printed l2);
                   (t, Boxplot tcp_times udp_times size);
                   (t, Barplot [mt; mu] [st; su]); (t, Shown)]
        /\ r = Ok tt).

Definition main_shape (host : string) (payload_size repeat : Z) (lo : N)
    (evs : list event) (r : outcome unit) (hi : N) : Prop :=
  exists t1 t2 tcp udp tail r_tcp,
    evs = [(lo, Spawned TcpServer (host, TCP_PORT));
           (lo, Spawned UdpServer (host, UDP_PORT));
           (t1, Did (Sleep READY_DELAY) nothing)] ++ tcp ++ udp ++ tail
    /\ (lo + READY_DELAY <= t1)%N
    /\ client_run tcp_event (Z.to_nat repeat) [] t1 tcp r_tcp t2
    /\ ((exists e, r_tcp = Raise e /\ r = Raise e /\ udp = [] /\ tail = []
                   /\ hi = t2)
        \/ (exists tcp_times r_udp,
              r_tcp = Ok tcp_times
              /\ client_run udp_event (Z.to_nat repeat) [] t2 udp r_udp hi
              /\ ((exists e, r_udp = Raise e /\ r = Raise e /\ tail = [])
                  \/ (exists udp_times,
                        r_udp = Ok udp_times
                        /\ tail_shape hi
                             (length (bytes_mul ["A"%byte] payload_size))
                             tcp_times udp_times tail r)))).

(** *** The logs of the servers *)

(** What the stream server read and what it wrote, with the socket, in
    order; likewise the datagrams the datagram server received and sent,
    with the address they came from or went to. *)
Definition stream_reads (evs : list event) : list (nat * bytes) :=
  flat_map (fun ev => match snd ev with
                      | Did (Recv s _) (Returns d _) => [(s, d)]
                      | _ => []
                      end) evs.

Definition stream_writes (evs : list event) : list (nat * bytes) :=
  flat_map (fun ev => match snd ev with
                      | Did (SendAll s d) _ => [(s, d)]
                      | _ => []
                      end) evs.

Definition dgram_reads (evs : list event) : list (bytes * endpoint) :=
  flat_map (fun ev => match snd ev with
                      | Did (RecvFrom _ _) (Returns d p) => [(d, p)]
                      | _ => []
                      end) evs.

Definition dgram_writes (evs : list event) : list (bytes * endpoint) :=
  flat_map (fun ev => match snd ev with
                      | Did (SendTo _ d a) _ => [(d, a)]
                      | _ => []
                      end) evs.

Definition nonempty_read (x : nat * bytes) : bool := truthy (snd x).

Definition nonempty_dgram (x : bytes * endpoint) : bool := truthy (fst x).

(** Every zero-byte read is directly followed by the close of its socket. *)
Fixpoint zero_reads_closed (evs : list event) : Prop :=
  match evs with
  | [] => True
  | (_, Did (Recv s _) (Returns [] _)) :: rest =>
      match rest with
      | (_, Did (Close s') _) :: _ => s' = s
      | _ => False
      end /\ zero_reads_closed rest
  | _ :: rest => zero_reads_closed rest
  end.

(** After an empty datagram the next call is not a send. *)
Fixpoint empty_dgrams_unanswered (evs : list event) : Prop :=
  match evs with
  | [] => True
  | (_, Did (RecvFrom _ _) (Returns [] _)) :: rest =>
      match rest with
      | (_, Did (SendTo _ _ _) _) :: _ => False
      | _ => True
      end /\ empty_dgrams_unanswered rest
  | _ :: rest => empty_dgrams_unanswered rest
  end.

(** The failures that the accept loop does not survive: a failing accept,
    and on a connection any exception that is not a [ConnectionError]. *)
Definition is_fatal (ev : event) : bool :=
  match snd ev with
  | Did (Accept _) (Fails _) => true
  | Did _ (Fails e) => negb (is_ConnectionError e)
  | _ => false
  end.

(** An accept; a receive of the datagram server. *)
Definition is_accept (ev : event) : bool :=
  match snd ev with Did (Accept _) _ => true | _ => false end.


(** A read that found the connection closed by the peer: zero bytes. *)
Definition is_zero_read (ev : event) : bool :=
  match snd ev with Did (Recv _ _) (Returns [] _) => true | _ => false end.

(** What the log of one turn of the accept loop looks like: a zero-byte
    read ends the turn normally and nothing is written; so does a failure
    that is a [ConnectionError] on the connection; the turn raises only on a
    failure of the other kind. *)
Record tcp_turn (evs : list event) (r : outcome unit) : Prop := mk_tcp_turn {
  turn_zero_read : existsb is_zero_read evs = true ->
                   r = Ok tt /\ stream_writes evs = [];
  turn_contained : failures evs <> [] -> existsb is_fatal evs = false -> r = Ok tt;
  turn_fatal : forall e, r = Raise e ->
               existsb is_fatal evs = true /\ failures evs = [e]
}.

(** At most [n] bytes, of the data of a read or of a datagram. *)
Definition within (n : N) (d : bytes) : Prop := (N.of_nat (length d) <= n)%N.

(** What the log of the stream server shows of its connections: a read
    never hands over more than the buffer holds, there is at most one read
    for each accept and at most one write for each read, and the sockets
    opened are closed, all but the last while its connection is being
    served. *)
Record connections (evs : list event) (r : outcome unit) : Prop := mk_connections {
  conn_bounded : Forall (fun x => within BUFSIZE (snd x)) (stream_reads evs);
  conn_reads : (length (stream_reads evs) <= length (filter is_accept evs))%nat;
  conn_writes : (length (stream_writes evs) <= length (stream_reads evs))%nat;
  conn_closed : exists rest, opened evs = closed evs ++ rest
                             /\ (length rest <= 1)%nat
                             /\ (r <> Pending -> rest = [])
}.


(** The exceptions of the failures that the accept loop does not
    survive, in order; what is logged after the first of them; and the
    closing of a socket. *)
Definition fatal_failures (evs : list event) : list exn :=
  flat_map (fun ev => if is_fatal ev
                      then match snd ev with Did _ (Fails e) => [e] | _ => [] end
                      else []) evs.

Fixpoint after_fatal (evs : list event) : list event :=
  match evs with
  | [] => []
  | ev :: rest => if is_fatal ev then rest else after_fatal rest
  end.

Definition is_close (ev : event) : bool :=
  match snd ev with Did (Close _) _ => true | _ => false end.

(** What the log of the accept loop of the stream server looks like. *)
Record tcp_server_run (evs : list event) (r : outcome unit) : Prop :=
  mk_tcp_server_run {
  tsr_loops : r <> Ok tt;
  tsr_echo : exists rest,
      filter nonempty_read (stream_reads evs) = stream_writes evs ++ rest
      /\ (length rest <= 1)%nat;
  tsr_quiet : zero_reads_closed evs;
  tsr_alive : existsb is_fatal evs = false -> r = Pending;
  tsr_fatal : forall e, r = Raise e -> existsb is_fatal evs = true
}.

(** What the log of the loop of the datagram server looks like. *)
Record udp_server_run (evs : list event) (r : outcome unit) : Prop :=
  mk_udp_server_run {
  usr_loops : r <> Ok tt;
  usr_echo : exists rest,
      filter nonempty_dgram (dgram_reads evs) = dgram_writes evs ++ rest
      /\ (length rest <= 1)%nat;
  usr_silent : empty_dgrams_unanswered evs;
  usr_starts : match evs with
               | (_, Did (SendTo _ _ _) _) :: _ => False
               | _ => True
               end;
  usr_failures : failures evs = raised r
}.

(** *** The loopback network *)

(** A link on which a read finds everything that was sent, with 50
    microseconds per call. *)
Definition localhost : Link :=
  mkLink DEFAULT_HOST (DEFAULT_HOST, 40000%Z) 50000 1048576.

(** No connection is open and no datagram is on its way to the client. *)
Definition idle (st : Loopback) : Prop := connected st = None /\ echoes st = [].

(** What one read of a stream passes on of the payload: at most the buffer
    size, and at most what the link delivers at once. *)
Definition one_read (l : Link) (payload : bytes) : bytes :=
  take (N.min BUFSIZE (Npos (segment l))) payload.

(** A datagram with no payload is sent; a [recvfrom] gives up. *)
Definition is_empty_datagram_sent (ev : event) : bool :=
  match snd ev with Did (SendTo _ [] _) _ => true | _ => false end.

Definition is_recvfrom_timeout (ev : event) : bool :=
  match snd ev with Did (RecvFrom _ _) (Fails SocketTimeout) => true | _ => false end.

Definition is_recv_timeout (ev : event) : bool :=
  match snd ev with Did (Recv _ _) (Fails SocketTimeout) => true | _ => false end.

(** A network on which every connection is accepted and then fails with
    [e] as soon as the server reads from it. *)
Definition failing_reads (e : exn) (st : unit) (c : call) : reply * unit :=
  match c with
  | Recv _ _ => (Reply 0 (Fails e), st)
  | _ => (Reply 0 nothing, st)
  end.

(** A world at time 0 with nothing logged. *)
Definition fresh_world {NetSt} (st : NetSt) : World NetSt := mkWorld 0%N 0 st [].

(** *** Networks that differ in the bytes they deliver *)

(** The same network, except that the bytes every receive call gets have
    gone through [f]. *)
Definition garbled {NetSt} (f : bytes -> bytes)
    (net_step : NetSt -> call -> reply * NetSt) (st : NetSt) (c : call)
    : reply * NetSt :=
  let '(r, st') := net_step st c in
  (match c, r with
   | Recv _ _, Reply el (Returns d p) => Reply el (Returns (f d) p)
   | RecvFrom _ _, Reply el (Returns d p) => Reply el (Returns (f d) p)
   | _, _ => r
   end, st').

(** Two runs that agree on everything but the log. *)
Definition same_run {NetSt A} (x y : outcome A * World NetSt) : Prop :=
  fst x = fst y /\ now (snd x) = now (snd y)
  /\ next_fd (snd x) = next_fd (snd y) /\ net (snd x) = net (snd y).

(** * Verification *)

Unset Implicit Arguments.

(** ** The statistics *)

Module StatsFacts.
Import stats.

Lemma leb_le (x y : Qc) : leb x y = true <-> (x <= y)%Qc.
Proof. unfold leb, Qcle. apply Qle_bool_iff. Qed.

Lemma leb_gt (x y : Qc) : leb x y = false -> (y <= x)%Qc.
Proof.
  intros H. destruct (Qclt_le_dec x y) as [Hlt | Hle]; [|exact Hle].
  apply Qclt_le_weak, leb_le in Hlt. congruence.
Qed.

Lemma insert_perm (x : Qc) (l : list Qc) : Permutation (x :: l) (insert x l).
Proof.
  induction l as [|y l IH]; simpl; [reflexivity|].
  destruct (leb x y); [reflexivity|].
  rewrite perm_swap. now apply perm_skip.
Qed.

Lemma sorted_perm (l : list Qc) : Permutation l (sorted l).
Proof.
  induction l as [|x l IH]; simpl; [constructor|].
  rewrite <- insert_perm. now apply perm_skip.
Qed.

Lemma sorted_length (l : list Qc) : length (sorted l) = length l.
Proof. symmetry. apply Permutation_length, sorted_perm. Qed.

Lemma insert_sorted (x : Qc) (l : list Qc) :
  StronglySorted Qcle l -> StronglySorted Qcle (insert x l).
Proof.
  induction 1 as [|y l Hs IH Hall]; simpl.
  - repeat constructor.
  - destruct (leb x y) eqn:E.
    + apply leb_le in E. constructor; [now constructor|].
      constructor; [exact E|].
      eapply Forall_impl; [|exact Hall]. intros z Hz. eapply Qcle_trans; eauto.
    + apply leb_gt in E. constructor; [exact IH|].
      eapply Permutation_Forall; [apply insert_perm|]. now constructor.
Qed.

Lemma sorted_sorted (l : list Qc) : StronglySorted Qcle (sorted l).
Proof.
  induction l as [|x l IH]; simpl; [constructor | now apply insert_sorted].
Qed.

(** Two sorted lists with the same elements are the same list. *)
Lemma sorted_unique (l l' : list Qc) :
  StronglySorted Qcle l -> StronglySorted Qcle l' -> Permutation l l' -> l = l'.
Proof.
  intros Hl. revert l'. induction Hl as [|x l Hs IH Hall]; intros l' Hl' P.
  - apply Permutation_nil in P. now subst.
  - destruct Hl' as [|y l' Hs' Hall'].
    + apply Permutation_sym, Permutation_nil in P. discriminate.
    + assert (x = y) as ->.
      { assert (In x (y :: l')) as Hx by (eapply Permutation_in; [exact P | now left]).
        assert (In y (x :: l)) as Hy
          by (eapply Permutation_in; [symmetry; exact P | now left]).
        destruct Hx as [-> | Hx]; [reflexivity|].
        destruct Hy as [-> | Hy]; [reflexivity|].
        rewrite Forall_forall in Hall, Hall'.
        apply Qcle_antisym; auto. }
      f_equal. apply IH; [exact Hs'|]. eapply Permutation_cons_inv; exact P.
Qed.

Lemma sorted_invariant (l l' : list Qc) :
  Permutation l l' -> sorted l = sorted l'.
Proof.
  intros P. apply sorted_unique; try apply sorted_sorted.
  rewrite <- (sorted_perm l), <- (sorted_perm l'). exact P.
Qed.

Lemma sum_invariant (l l' : list Qc) : Permutation l l' -> sum l = sum l'.
Proof.
  induction 1; simpl; try congruence.
  rewrite !Qcplus_assoc. f_equal. apply Qcplus_comm.
Qed.

Lemma mean_invariant (l l' : list Qc) : Permutation l l' -> mean l = mean l'.
Proof.
  intros P. unfold mean.
  rewrite (sum_invariant _ _ P), (Permutation_length P).
  destruct l, l'; try reflexivity.
  - apply Permutation_nil in P. discriminate.
  - apply Permutation_sym, Permutation_nil in P. discriminate.
Qed.

Lemma median_invariant (l l' : list Qc) :
  Permutation l l' -> median l = median l'.
Proof. intros P. unfold median. now rewrite (sorted_invariant _ _ P). Qed.

Lemma ss_invariant (l l' : list Qc) : Permutation l l' -> ss l = ss l'.
Proof.
  intros P. unfold ss.
  rewrite (sum_invariant _ _ P), (Permutation_length P).
  apply sum_invariant, Permutation_map, P.
Qed.

Lemma pstdev_invariant (l l' : list Qc) :
  Permutation l l' -> pstdev l = pstdev l'.
Proof.
  intros P. unfold pstdev.
  rewrite (ss_invariant _ _ P), (Permutation_length P).
  destruct l, l'; try reflexivity.
  - apply Permutation_nil in P. discriminate.
  - apply Permutation_sym, Permutation_nil in P. discriminate.
Qed.

Lemma of_nat_1 : of_nat 1 = 1%Qc.
Proof. reflexivity. Qed.

Lemma mean_single (x : Qc) : mean [x] = Ok x.
Proof.
  unfold mean, sum. simpl fold_right. simpl length. rewrite of_nat_1.
  f_equal. field. apply Q_apart_0_1.
Qed.

Lemma median_single (x : Qc) : median [x] = Ok x.
Proof. reflexivity. Qed.

Lemma pstdev_single (x : Qc) : pstdev [x] = Ok 0%Qc.
Proof.
  unfold pstdev, ss, sum. simpl map. simpl fold_right. simpl length.
  rewrite of_nat_1.
  replace ((((x - (x + 0) / 1) * (x - (x + 0) / 1) + 0) / 1)%Qc) with 0%Qc
    by (field; apply Q_apart_0_1).
  reflexivity.
Qed.

End StatsFacts.

(** ** The summary line *)

Lemma is_digit_digit (z : Z) : is_digit (digit z) = true.
Proof.
  unfold is_digit, digit.
  assert (0 <= z mod 10 < 10)%Z as Hz by (apply Z.mod_pos_bound; lia).
  rewrite nat_ascii_embedding by lia.
  apply andb_true_intro; split; apply Nat.leb_le; lia.
Qed.

Lemma is_digit_not_minus (c : ascii) : is_digit c = true -> Ascii.eqb c "-" = false.
Proof.
  intros H. destruct (Ascii.eqb c "-") eqn:E; [|reflexivity].
  apply Ascii.eqb_eq in E. subst c. discriminate H.
Qed.

Lemma is_digit_not_space (c : ascii) : is_digit c = true -> Ascii.eqb c " " = false.
Proof.
  intros H. destruct (Ascii.eqb c " ") eqn:E; [|reflexivity].
  apply Ascii.eqb_eq in E. subst c. discriminate H.
Qed.

Lemma all_digits_uint (u : Decimal.uint) :
  all_digits (NilEmpty.string_of_uint u) = true.
Proof. induction u; simpl; auto. Qed.

Lemma all_digits_str (u : Decimal.uint) :
  all_digits (NilZero.string_of_uint u) = true.
Proof. destruct u; try reflexivity; apply (all_digits_uint (_ _)). Qed.

Lemma two_digits (a : Z) :
  (10 <= a)%Z ->
  Nat.leb 2 (String.length (NilZero.string_of_uint (N.to_uint (Z.to_N a)))) = true.
Proof.
  intros Ha.
  assert (10 <= Z.to_N a)%N as Hn by lia.
  rewrite <- (DecimalN.Unsigned.of_to (Z.to_N a)) in Hn.
  destruct (N.to_uint (Z.to_N a)) as [|u|u|u|u|u|u|u|u|u|u];
    try (destruct u; try reflexivity; vm_compute in Hn; congruence).
  vm_compute in Hn. congruence.
Qed.

Lemma exponent_field_shape (x : Z) :
  exists sg ex,
    exponent_field x = String sg ex
    /\ (Ascii.eqb sg "+" || Ascii.eqb sg "-")%bool = true
    /\ Nat.leb 2 (String.length ex) = true
    /\ all_digits ex = true.
Proof.
  unfold exponent_field.
  exists (if (x <? 0)%Z then "-"%char else "+"%char).
  eexists. split; [destruct (x <? 0)%Z; reflexivity|].
  split; [destruct (x <? 0)%Z; reflexivity|].
  destruct (Z.abs x <? 10)%Z eqn:E.
  - split; [reflexivity|]. cbn [all_digits]. now rewrite !is_digit_digit.
  - split; [apply two_digits; lia | apply all_digits_str].
Qed.

(** Whatever the number, [.6e] prints it in the shape [d.dddddde+dd]. *)
Lemma format_e6_is_sci (q : Qc) : is_sci (format_e6 q) = true.
Proof.
  assert (forall m x,
    is_sci_unsigned
      (String (digit (m / 1000000)) (String "."
        (String (digit (m / 100000)) (String (digit (m / 10000))
        (String (digit (m / 1000)) (String (digit (m / 100))
        (String (digit (m / 10)) (String (digit m) EmptyString)))))))
       ++ "e" ++ exponent_field x)%string = true) as Hbody.
  { intros m x. destruct (exponent_field_shape x) as (sg & ex & -> & Hsg & Hlen & Hex).
    cbn [append is_sci_unsigned].
    now rewrite !is_digit_digit, Hsg, Hlen, Hex. }
  assert (forall s, is_sci_unsigned s = true -> is_sci s = true) as Hpos.
  { intros s H. destruct s as [|c s]; [discriminate|].
    unfold is_sci. destruct (Ascii.eqb c "-") eqn:Ec; [|exact H].
    apply Ascii.eqb_eq in Ec. subst c.
    do 9 (destruct s as [|? s]; [discriminate|]). discriminate H. }
  unfold format_e6. destruct (Qnum q) as [|n|n]; [reflexivity| |].
  - apply Hpos. destruct (_ =? _)%Z; apply Hbody.
  - cbn [append is_sci]. cbn [Ascii.eqb Bool.eqb].
    destruct (_ =? _)%Z; apply Hbody.
Qed.

Lemma all_digits_no_space (s : string) : all_digits s = true -> no_space s = true.
Proof.
  induction s as [|c s IH]; [reflexivity|]. simpl. intros H.
  apply andb_prop in H as [Hc Hs]. now rewrite (is_digit_not_space _ Hc), IH.
Qed.

Lemma is_sci_no_space (s : string) : is_sci s = true -> no_space s = true.
Proof.
  assert (forall u, is_sci_unsigned u = true -> no_space u = true) as Hu.
  { intros u H.
    do 10 (destruct u as [|? u]; [discriminate|]).
    cbn [is_sci_unsigned] in H.
    repeat match type of H with (_ && _)%bool = true =>
      let H1 := fresh in apply andb_prop in H as [H H1] end.
    cbn [no_space].
    repeat match goal with
    | Hd : is_digit ?c = true |- context [Ascii.eqb ?c " "] =>
        rewrite (is_digit_not_space _ Hd)
    | He : Ascii.eqb ?c ?k = true |- context [Ascii.eqb ?c " "] =>
        apply Ascii.eqb_eq in He; subst c
    end.
    match goal with Ho : (_ || _)%bool = true |- _ =>
      apply orb_prop in Ho as [Ho | Ho]; apply Ascii.eqb_eq in Ho; subst end;
    cbn; now apply all_digits_no_space. }
  destruct s as [|c s]; [discriminate|]. unfold is_sci.
  destruct (Ascii.eqb c "-") eqn:E; intros H.
  - apply Ascii.eqb_eq in E. subst c. cbn. now apply Hu.
  - now apply Hu.
Qed.

(** A string without spaces that is followed by a space ends where the
    whole string has its first space. *)
Lemma upto_space_app (s r : string) :
  no_space s = true -> upto_space (s ++ String " " r) = s.
Proof.
  induction s as [|c s IH]; [reflexivity|]. simpl. intros H.
  apply andb_prop in H as [Hc Hs].
  destruct (Ascii.eqb c " "); [discriminate|]. now rewrite IH.
Qed.

Lemma summarize_line (name : string) (x : Qc) (arr : list Qc) :
  exists m md sd,
    stats.mean (x :: arr) = Ok m /\ stats.median (x :: arr) = Ok md
    /\ stats.pstdev (x :: arr) = Ok sd
    /\ summarize name (x :: arr)
       = Ok (summary_line name (format_e6 m) (format_e6 md) (format_e6 sd)
                          (length (x :: arr))).
Proof.
  unfold summarize, stats.median.
  assert (Nat.eqb (length (stats.sorted (x :: arr))) 0 = false) as ->.
  { rewrite StatsFacts.sorted_length. reflexivity. }
  destruct (Nat.eqb _ 1); do 3 eexists; repeat split; reflexivity.
Qed.

(** ** Running programs *)

Lemma timeline_le (evs : list event) : forall lo hi, timeline lo evs hi -> (lo <= hi)%N.
Proof.
  induction evs as [|[t a] evs IH]; simpl; intros lo hi H; [exact H|].
  destruct H as [H1 H2]. apply IH in H2. lia.
Qed.

Lemma timeline_app (evs1 evs2 : list event) :
  forall lo mid hi,
    timeline lo evs1 mid -> timeline mid evs2 hi -> timeline lo (evs1 ++ evs2) hi.
Proof.
  induction evs1 as [|[t a] evs1 IH]; simpl; intros lo mid hi H1 H2.
  - destruct evs2 as [|[t a] evs2]; simpl in *; [lia|].
    destruct H2 as [H2 H3]. split; [lia | exact H3].
  - destruct H1 as [H1 H1']. split; [exact H1 | eapply IH; eauto].
Qed.

Lemma timeline_weaken (evs : list event) :
  forall lo lo' hi, (lo' <= lo)%N -> timeline lo evs hi -> timeline lo' evs hi.
Proof.
  destruct evs as [|[t a] evs]; simpl; intros lo lo' hi Hlo H; [lia|].
  destruct H as [H1 H2]. split; [lia | exact H2].
Qed.

Lemma paced_weaken (ts : list N) :
  forall free free' hi, (free' <= free)%N -> paced free ts hi -> paced free' ts hi.
Proof.
  destruct ts as [|s [|e rest]]; simpl; intros free free' hi Hf H; [lia|lia|].
  destruct H as (H1 & H2). split; [lia | exact H2].
Qed.

Lemma failures_app (evs1 evs2 : list event) :
  failures (evs1 ++ evs2) = failures evs1 ++ failures evs2.
Proof. apply flat_map_app. Qed.

Lemma seconds_le (a b : N) : (a <= b)%N -> (seconds a <= seconds b)%Qc.
Proof.
  intros H. unfold Qcle, seconds, Q2Qc. cbn [this].
  rewrite !Qred_correct. unfold Qle. cbn [Qnum Qden]. lia.
Qed.

Lemma seconds_span (a b : N) : (a <= b)%N -> (0 <= seconds b - seconds a)%Qc.
Proof.
  intros H. unfold Qcminus.
  apply (proj1 (Qcle_minus_iff (seconds a) (seconds b))). now apply seconds_le.
Qed.

Section Runs.

Variable NetSt : Type.
Variable net_step : NetSt -> call -> reply * NetSt.

(** Every blocking call either comes back at some later time with an
    answer, which is logged, or is still waiting. *)
Lemma blocking_cases (tmo : option N) (c : call) (w : World NetSt) :
  exists st,
    (exists t a, (now w <= t)%N
       /\ blocking net_step tmo c w = (outcome_of a, after w t st (Did c a))
       /\ clip c a = a)
    \/ (tmo = None /\ blocking net_step tmo c w = (Pending, stalled w st)).
Proof.
  unfold blocking. destruct (net_step (net w) c) as [[el a|] st]; exists st.
  - assert (clip c (clip c a) = clip c a) as Hclip.
    { destruct c, a; simpl; try reflexivity; unfold take;
        now rewrite firstn_firstn, Nat.min_id. }
    destruct tmo as [limit|].
    + destruct (el <? limit)%N.
      * left. exists (now w + el)%N, (clip c a). repeat split; [lia | exact Hclip].
      * left. exists (now w + limit)%N, (Fails SocketTimeout).
        repeat split; [lia | now destruct c].
    + left. exists (now w + el)%N, (clip c a). repeat split; [lia | exact Hclip].
  - destruct tmo as [limit|].
    + left. exists (now w + limit)%N, (Fails SocketTimeout).
      repeat split; [lia | now destruct c].
    + right. split; reflexivity.
Qed.

Lemma sleep_cases (ns : N) (w : World NetSt) :
  exists st t, (now w + ns <= t)%N
    /\ sleep net_step ns w = (Ok tt, after w t st (Did (Sleep ns) nothing)).
Proof.
  unfold sleep. destruct (net_step (net w) (Sleep ns)) as [[el a|] st];
    exists st; eexists; (split; [|reflexivity]); lia.
Qed.

Lemma close_cases (s : socket) (w : World NetSt) :
  exists st t, (now w <= t)%N
    /\ sock_close net_step s w = (Ok tt, after w t st (Did (Close (fd s)) nothing)).
Proof.
  unfold sock_close. destruct (net_step (net w) (Close (fd s))) as [[el a|] st];
    exists st; eexists; (split; [|reflexivity]); lia.
Qed.

(** The calls of the socket module, by cases: each comes back with an
    answer that is logged, or (only without a timeout) is still waiting. *)
Lemma call_cases {A} (f : answer -> A) (tmo : option N) (c : call) (w : World NetSt) :
  exists st,
    (exists t a, (now w <= t)%N
       /\ bind (blocking net_step tmo c) (fun a => ret (f a)) w
          = (result_of f a, after w t st (Did c a))
       /\ clip c a = a)
    \/ (tmo = None
        /\ bind (blocking net_step tmo c) (fun a => ret (f a)) w
           = (Pending, stalled w st)).
Proof.
  unfold bind.
  destruct (blocking_cases tmo c w) as (st & [(t & a & Ht & Hb & Hc) | (Hc & Hb)]);
    exists st; rewrite Hb.
  - left. exists t, a. repeat split; [exact Ht | now destruct a | exact Hc].
  - right. split; [exact Hc | reflexivity].
Qed.

Lemma sendto_cases (s : socket) (d : bytes) (a : endpoint) (w : World NetSt) :
  exists st,
    (exists t an, (now w <= t)%N
       /\ sock_sendto net_step s d a w
          = (result_of (fun _ => tt) an, after w t st (Did (SendTo (fd s) d a) an)))
    \/ (timeout s = None /\ sock_sendto net_step s d a w = (Pending, stalled w st)).
Proof.
  destruct (call_cases (fun _ => tt) (timeout s) (SendTo (fd s) d a) w)
    as (st & [(t & an & Ht & Hb & _) | H]); exists st; [left | right; exact H].
  exists t, an. split; [exact Ht | exact Hb].
Qed.

Lemma sendall_cases (s : socket) (d : bytes) (w : World NetSt) :
  exists st,
    (exists t an, (now w <= t)%N
       /\ sock_sendall net_step s d w
          = (result_of (fun _ => tt) an, after w t st (Did (SendAll (fd s) d) an)))
    \/ (timeout s = None /\ sock_sendall net_step s d w = (Pending, stalled w st)).
Proof.
  destruct (call_cases (fun _ => tt) (timeout s) (SendAll (fd s) d) w)
    as (st & [(t & an & Ht & Hb & _) | H]); exists st; [left | right; exact H].
  exists t, an. split; [exact Ht | exact Hb].
Qed.

Lemma connect_cases (s : socket) (a : endpoint) (w : World NetSt) :
  exists st,
    (exists t an, (now w <= t)%N
       /\ sock_connect net_step s a w
          = (result_of (fun _ => tt) an, after w t st (Did (Connect (fd s) a) an)))
    \/ (timeout s = None /\ sock_connect net_step s a w = (Pending, stalled w st)).
Proof.
  destruct (call_cases (fun _ => tt) (timeout s) (Connect (fd s) a) w)
    as (st & [(t & an & Ht & Hb & _) | H]); exists st; [left | right; exact H].
  exists t, an. split; [exact Ht | exact Hb].
Qed.



Lemma recv_cases (s : socket) (n : N) (w : World NetSt) :
  exists st,
    (exists t an, (now w <= t)%N
       /\ sock_recv net_step s n w
          = (result_of payload_of an, after w t st (Did (Recv (fd s) n) an)))
    \/ (timeout s = None /\ sock_recv net_step s n w = (Pending, stalled w st)).
Proof.
  destruct (call_cases payload_of (timeout s) (Recv (fd s) n) w)
    as (st & [(t & an & Ht & Hb & _) | H]); exists st; [left | right; exact H].
  exists t, an. split; [exact Ht | exact Hb].
Qed.

Lemma recvfrom_cases (s : socket) (n : N) (w : World NetSt) :
  exists st,
    (exists t an, (now w <= t)%N
       /\ sock_recvfrom net_step s n w
          = (result_of (fun a => (payload_of a, peer_of a)) an,
             after w t st (Did (RecvFrom (fd s) n) an)))
    \/ (timeout s = None /\ sock_recvfrom net_step s n w = (Pending, stalled w st)).
Proof.
  destruct (call_cases (fun a => (payload_of a, peer_of a)) (timeout s)
              (RecvFrom (fd s) n) w)
    as (st & [(t & an & Ht & Hb & _) | H]); exists st; [left | right; exact H].
  exists t, an. split; [exact Ht | exact Hb].
Qed.

Lemma run_finally {A} (body : M NetSt A) (cleanup : M NetSt unit) (w : World NetSt) :
  finally body cleanup w
  = match body w with
    | (Ok a, w') =>
        match cleanup w' with
        | (Ok _, w'') => (Ok a, w'')
        | (Raise e, w'') => (Raise e, w'')
        | (Pending, w'') => (Pending, w'')
        end
    | (Raise e, w') =>
        match cleanup w' with
        | (Ok _, w'') => (Raise e, w'')
        | (Raise e', w'') => (Raise e', w'')
        | (Pending, w'') => (Pending, w'')
        end
    | (Pending, w') => (Pending, w')
    end.
Proof. reflexivity. Qed.

(** One step of a program: what [bind] does with the outcome of its first
    part. *)
Lemma run_bind {A B} (m : M NetSt A) (k : A -> M NetSt B) (w : World NetSt) :
  bind m k w = match m w with
               | (Ok a, w') => k a w'
               | (Raise e, w') => (Raise e, w')
               | (Pending, w') => (Pending, w')
               end.
Proof. reflexivity. Qed.

End Runs.

#[local] Opaque seconds Qcminus.

(** Symbolic execution of the next call of the program under [runs]. *)
Ltac tidy :=
  cbv beta iota;
  cbn [now after trace next_fd net stalled fst snd fd kind timeout
       payload_of peer_of] in *.

Ltac step_with lem :=
  let st := fresh "st" in let t := fresh "t" in let a := fresh "a" in
  let Ht := fresh "Ht" in let Hb := fresh "Hb" in let Hn := fresh "Hn" in
  destruct lem as (st & [(t & a & Ht & Hb) | (Hn & Hb)]);
  [rewrite Hb; clear Hb; destruct a as [? ? | ?]; cbn [result_of]
  | try congruence; try (cbn in Hn; congruence); rewrite Hb; clear Hb].

Ltac step_done lem :=
  let st := fresh "st" in let t := fresh "t" in
  let Ht := fresh "Ht" in let Hb := fresh "Hb" in
  destruct lem as (st & t & Ht & Hb); rewrite Hb; clear Hb.

Ltac step_call :=
  match goal with
  | |- context [sock_sendto ?nst ?s ?d ?a ?w] => step_with (sendto_cases _ nst s d a w)
  | |- context [sock_sendall ?nst ?s ?d ?w] => step_with (sendall_cases _ nst s d w)
  | |- context [sock_connect ?nst ?s ?a ?w] => step_with (connect_cases _ nst s a w)
  | |- context [sock_recv ?nst ?s ?n ?w] => step_with (recv_cases _ nst s n w)
  | |- context [sock_recvfrom ?nst ?s ?n ?w] => step_with (recvfrom_cases _ nst s n w)
  | |- context [sleep ?nst ?ns ?w] => step_done (sleep_cases _ nst ns w)
  | |- context [sock_close ?nst ?s ?w] => step_done (close_cases _ nst s w)
  end.

Ltac step :=
  first [ progress (unfold with_socket, settimeout, setsockopt;
                    rewrite ?run_bind, ?run_finally;
                    cbn [perf_counter socket_new log ret lift]; tidy)
        | step_call; tidy ].

(** The end of a path: name the new entries and check what is asked of
    them. *)
Ltac name_events :=
  tidy; rewrite <- ?app_assoc; eexists; split; [reflexivity|]; cbn [app].

Ltac log_facts :=
  cbn [timeline failures clock_stamps clock_readings flat_map app fst snd
       least_duration raised paced forallb is_client_event tcp_event udp_event
       received
       is_stream_call is_dgram_call andb length
       Nat.odd Nat.even negb spans nothing];
  try solve [ reflexivity | discriminate | lia | repeat split; lia
            | intros; discriminate | intros; congruence | assumption ].

(** The path that goes round the loop: the rest of the run is described by
    the induction hypothesis. *)
Ltac go_round IH :=
  match goal with
  | |- let '(r, w') := ?f ?w1 in _ =>
      let r := fresh "r" in let w' := fresh "w'" in let evs := fresh "evs" in
      let Htr := fresh "Htr" in
      let Hti := fresh "Hti" in let Hfa := fresh "Hfa" in let Hpa := fresh "Hpa" in
      let Hev := fresh "Hev" in let Hpe := fresh "Hpe" in let Hra := fresh "Hra" in
      let Hre := fresh "Hre" in let IH' := fresh "IH'" in let Hrc := fresh "Hrc" in
      let E1 := fresh "E1" in let E2 := fresh "E2" in
      let E3 := fresh "E3" in let E4 := fresh "E4" in
      match f with
      | context [?ds ++ [?dt]] =>
          pose proof (IH (ds ++ [dt]) w1) as IH'
      end;
      unfold runs in IH'; destruct (f w1) as [r w'];
      destruct IH' as (evs & Htr & [Hti Hfa Hpa Hev Hpe Hra Hre Hrc]);
      tidy; rewrite Htr; name_events; constructor; log_facts;
      [ repeat split; try lia; exact Hti
      | split; [lia|]; eapply paced_weaken; [|exact Hpa]; lia
      | let ds' := fresh "ds'" in let E := fresh "E" in
        intros ds' E; destruct (Hre ds' E) as (E1 & E2 & E3 & E4);
        repeat split;
        [ rewrite E1, <- app_assoc; reflexivity
        | f_equal; exact E2
        | unfold clock_stamps in E3; lia
        | constructor; [|exact E4]; apply seconds_span; lia ]
      | f_equal; exact Hrc ]
  end.

Lemma paced_extend (ts : list N) :
  forall free hi hi', (hi <= hi')%N -> paced free ts hi -> paced free ts hi'.
Proof.
  assert (forall n ts, (length ts <= n)%nat ->
    forall free hi hi', (hi <= hi')%N -> paced free ts hi -> paced free ts hi') as H.
  { induction n as [|n IH]; intros [|s [|e rest]] Hn free hi hi' Hh H;
      simpl in *; try lia.
    destruct H as (H1 & H2). split; [exact H1|].
    eapply IH; [lia | exact Hh | exact H2]. }
  now apply (H (length ts)).
Qed.

Lemma timeline_snoc (evs : list event) (lo hi t : N) (a : action) :
  timeline lo evs hi -> (hi + least_duration a <= t)%N ->
  timeline lo (evs ++ [(t, a)]) t.
Proof.
  intros H Ht. eapply timeline_app; [exact H|]. simpl. lia.
Qed.

Lemma forallb_snoc {A} (f : A -> bool) (l : list A) (x : A) :
  forallb f l = true -> f x = true -> forallb f (l ++ [x]) = true.
Proof. intros Hl Hx. rewrite forallb_app, Hl. simpl. now rewrite Hx. Qed.

Lemma clock_stamps_app (evs1 evs2 : list event) :
  clock_stamps (evs1 ++ evs2) = clock_stamps evs1 ++ clock_stamps evs2.
Proof. apply flat_map_app. Qed.

Lemma clock_readings_app (evs1 evs2 : list event) :
  clock_readings (evs1 ++ evs2) = clock_readings evs1 ++ clock_readings evs2.
Proof. apply flat_map_app. Qed.

Lemma received_app (evs1 evs2 : list event) :
  received (evs1 ++ evs2) = received evs1 ++ received evs2.
Proof. apply flat_map_app. Qed.




Lemma opened_app (evs1 evs2 : list event) :
  opened (evs1 ++ evs2) = opened evs1 ++ opened evs2.
Proof. apply flat_map_app. Qed.

Lemma closed_app (evs1 evs2 : list event) :
  closed (evs1 ++ evs2) = closed evs1 ++ closed evs2.
Proof. apply flat_map_app. Qed.

(** Closing the socket after the loop adds one entry that is neither a
    failure nor a reading of the clock. *)
Lemma client_run_close K n ds lo evs r hi t s :
  client_run K n ds lo evs r hi -> (hi <= t)%N ->
  K (t, Did (Close s) nothing) = true ->
  client_run K n ds lo (evs ++ [(t, Did (Close s) nothing)]) r t.
Proof.
  intros [Hti Hfa Hpa Hev Hpe Hra Hre Hrc] Ht HK.
  constructor;
    rewrite ?failures_app, ?clock_stamps_app, ?clock_readings_app, ?received_app;
    cbn [failures clock_stamps clock_readings received flat_map snd nothing];
    rewrite ?app_nil_r; auto.
  - eapply timeline_snoc; [exact Hti | simpl; lia].
  - eapply paced_extend; eauto.
  - now apply forallb_snoc.
Qed.


Section Clients.

Variable NetSt : Type.
Variable net_step : NetSt -> call -> reply * NetSt.

Lemma udp_loop_run (c : socket) (host : string) (port : Z) (payload : bytes) :
  timeout c = Some TIMEOUT ->
  forall n ds w,
    runs (udp_loop net_step c host port payload n ds) w
         (client_run udp_event n ds (now w)).
Proof.
  intros Hc. induction n as [|k IH]; intros ds w.
  - unfold runs. cbn [udp_loop ret]. exists []. rewrite app_nil_r.
    split; [reflexivity|]. constructor; log_facts.
    intros ds' H. injection H as <-. rewrite app_nil_r. repeat split. constructor.
  - unfold runs. cbn [udp_loop]. repeat step.
    all: try solve [name_events; constructor; log_facts].
    go_round IH.
Qed.

Lemma tcp_loop_run (host : string) (port : Z) (payload : bytes) :
  forall n ds w,
    runs (tcp_loop net_step host port payload n ds) w
         (client_run tcp_event n ds (now w)).
Proof.
  induction n as [|k IH]; intros ds w.
  - unfold runs. cbn [tcp_loop ret]. exists []. rewrite app_nil_r.
    split; [reflexivity|]. constructor; log_facts.
    intros ds' H. injection H as <-. rewrite app_nil_r. repeat split. constructor.
  - unfold runs. cbn [tcp_loop]. repeat step.
    all: try solve [name_events; constructor; log_facts].
    go_round IH.
Qed.

Lemma client_run_cons K n ds lo evs r hi a :
  client_run K n ds lo evs r hi -> K (lo, a) = true ->
  match a with Clock _ | Did _ _ => False | _ => True end ->
  client_run K n ds lo ((lo, a) :: evs) r hi.
Proof.
  intros [Hti Hfa Hpa Hev Hpe Hra Hre Hrc] HK Ha.
  constructor; cbn [forallb]; rewrite ?HK; auto;
    destruct a; try contradiction; cbn; auto; split; auto; lia.
Qed.

Lemma measure_tcp_run (host : string) (port : Z) (payload : bytes) (n : Z) w :
  runs (measure_tcp_transactions net_step host port payload n) w
       (client_run tcp_event (Z.to_nat n) [] (now w)).
Proof. apply tcp_loop_run. Qed.

Lemma measure_udp_run (host : string) (port : Z) (payload : bytes) (n : Z) w :
  runs (measure_udp_transactions net_step host port payload n) w
       (client_run udp_event (Z.to_nat n) [] (now w)).
Proof.
  unfold runs, measure_udp_transactions. repeat step.
  match goal with |- context [udp_loop ?nst ?c ?h ?p ?pl ?k ?ds ?w1] =>
    pose proof (@udp_loop_run c h p pl eq_refl k ds w1) as H;
    unfold runs in H; destruct (udp_loop nst c h p pl k ds w1) as [r w'];
    destruct H as (evs & Htr & Hrun) end.
  tidy.
  assert (forall t, (now w' <= t)%N ->
            client_run udp_event (Z.to_nat n) [] (now w)
              ((now w, Opened (next_fd w) SOCK_DGRAM)
               :: (now w, TimeoutSet (next_fd w) TIMEOUT)
               :: evs ++ [(t, Did (Close (next_fd w)) nothing)]) r t) as Hall.
  { intros t Ht. do 2 (apply client_run_cons; [|reflexivity|exact I]).
    apply client_run_close with (hi := now w'); auto. }
  destruct r; [ | | exfalso; exact (run_pending Hrun eq_refl)];
    repeat step; rewrite Htr; name_events; now apply Hall.
Qed.

Lemma client_run_nonempty {K n ds lo evs hi} {times : list Qc} :
  client_run K n ds lo evs (Ok times) hi -> length times = (length ds + n)%nat.
Proof.
  intros H. destruct (run_result H eq_refl) as (-> & Hn & _).
  rewrite length_app. lia.
Qed.

Lemma main_run (host : string) (payload_size repeat : Z) w :
  runs (main net_step host payload_size repeat) w
       (main_shape host payload_size repeat (now w)).
Proof.
  unfold runs, main. repeat step.
  match goal with |- context [measure_tcp_transactions ?nst ?h ?p ?pl ?k ?w1] =>
    pose proof (@measure_tcp_run h p pl k w1) as H;
    unfold runs in H; destruct (measure_tcp_transactions nst h p pl k w1) as [r w'];
    destruct H as (tcp & Htr & Htcp) end.
  tidy.
  destruct r as [tcp_times | e |]; [ | | exfalso; exact (run_pending Htcp eq_refl)].
  2:{ rewrite Htr. name_events. exists t, (now w'), tcp, [], [], (Raise e).
      rewrite !app_nil_r. split; [reflexivity|]. split; [lia|].
      split; [exact Htcp|]. left. exists e. auto. }
  repeat step.
  match goal with |- context [measure_udp_transactions ?nst ?h ?p ?pl ?k ?w1] =>
    pose proof (@measure_udp_run h p pl k w1) as H;
    unfold runs in H; destruct (measure_udp_transactions nst h p pl k w1) as [r w''];
    destruct H as (udp & Htr' & Hudp) end.
  tidy.
  destruct r as [udp_times | e |]; [ | | exfalso; exact (run_pending Hudp eq_refl)].
  2:{ rewrite Htr', Htr. name_events.
      exists t, (now w'), tcp, udp, [], (Ok tcp_times).
      rewrite !app_nil_r. split; [reflexivity|]. split; [lia|].
      split; [exact Htcp|]. right.
      exists tcp_times, (Raise e). split; [reflexivity|]. split; [exact Hudp|].
      left. exists e. auto. }
  pose proof (client_run_nonempty Htcp) as Ln.
  pose proof (client_run_nonempty Hudp) as Ln'.
  destruct tcp_times as [|x tcp_times].
  { rewrite run_bind. cbn [lift].
    change (summarize "TCP per-transaction" []) with (@Raise string StatisticsError).
    tidy. rewrite Htr', Htr. name_events.
    exists t, (now w'), tcp, udp, [], (Ok []).
    rewrite !app_nil_r. split; [reflexivity|]. split; [lia|].
    split; [exact Htcp|]. right.
    exists [], (Ok udp_times). split; [reflexivity|]. split; [exact Hudp|].
    right. exists udp_times. split; [reflexivity|]. left. auto. }
  destruct udp_times as [|y udp_times]; [cbn in Ln, Ln'; lia|].
  destruct (summarize_line "TCP per-transaction" x tcp_times)
    as (mt & mdt & sdt & Emt & _ & Est & El1).
  destruct (summarize_line "UDP per-transaction" y udp_times)
    as (mu & mdu & sdu & Emu & _ & Esu & El2).
  rewrite run_bind. cbn [lift]. rewrite El1. tidy.
  rewrite run_bind. cbn [log]. tidy.
  rewrite run_bind. cbn [lift]. rewrite El2. tidy.
  rewrite run_bind. cbn [log]. tidy.
  unfold plot_results.
  rewrite run_bind. cbn [log]. tidy.
  rewrite run_bind. cbn [lift]. rewrite Emt. tidy.
  rewrite run_bind. cbn [lift]. rewrite Emu. tidy.
  rewrite run_bind. cbn [lift]. rewrite Est. tidy.
  rewrite run_bind. cbn [lift]. rewrite Esu. tidy.
  rewrite run_bind. cbn [log]. tidy.
  rewrite Htr', Htr. name_events.
  eexists t, (now w'), tcp, udp, _, (Ok (x :: tcp_times)).
  split; [reflexivity|]. split; [lia|].
  split; [exact Htcp|]. right.
  exists (x :: tcp_times), (Ok (y :: udp_times)).
  split; [reflexivity|]. split; [exact Hudp|]. right.
  exists (y :: udp_times). split; [reflexivity|]. right.
  exists (summary_line "TCP per-transaction" (format_e6 mt) (format_e6 mdt)
            (format_e6 sdt) (length (x :: tcp_times))),
         (summary_line "UDP per-transaction" (format_e6 mu) (format_e6 mdu)
            (format_e6 sdu) (length (y :: udp_times))),
         mt, mu, sdt, sdu.
  repeat split; assumption || reflexivity.
Qed.

End Clients.

(** ** From the shape of the logs to the claims *)

Lemma new_events_app {NetSt} {w w' : World NetSt} {evs : list event} :
  trace w' = trace w ++ evs -> new_events w w' = evs.
Proof.
  intros H. unfold new_events. rewrite H, skipn_app, skipn_all, Nat.sub_diag.
  reflexivity.
Qed.

(** What [runs] says, in terms of the entries added to the log. *)
Lemma runs_new_events {NetSt A} (m : M NetSt A) (w : World NetSt)
    (P : list event -> outcome A -> N -> Prop) :
  runs m w P -> P (new_events w (snd (m w))) (fst (m w)) (now (snd (m w))).
Proof.
  unfold runs. destruct (m w) as [r w']. intros (evs & Htr & HP).
  cbn [fst snd]. now rewrite (new_events_app Htr).
Qed.

Lemma failures_In (evs : list event) (t : N) (c : call) (e : exn) :
  In (t, Did c (Fails e)) evs -> In e (failures evs).
Proof.
  intros H. unfold failures. apply in_flat_map.
  exists (t, Did c (Fails e)). split; [exact H | now left].
Qed.

Lemma receive_timeout_failure (evs : list event) :
  existsb is_receive_timeout evs = true -> In SocketTimeout (failures evs).
Proof.
  intros H. apply existsb_exists in H as ([t a] & Hin & Ha).
  unfold is_receive_timeout in Ha. cbn [snd] in Ha.
  destruct a as [| | |c [d p|e]| | | | | |]; try discriminate;
    destruct c; try discriminate; destruct e; try discriminate;
    eapply failures_In; exact Hin.
Qed.

Lemma receive_timeout_raises K n ds lo evs (r : outcome (list Qc)) hi :
  client_run K n ds lo evs r hi ->
  existsb is_receive_timeout evs = true -> r = Raise SocketTimeout.
Proof.
  intros Hrun H. apply receive_timeout_failure in H.
  rewrite (run_failures Hrun) in H. destruct r; cbn in H; try contradiction.
  destruct H as [-> | []]. reflexivity.
Qed.

Lemma client_events_printed K evs :
  (forall ev, K ev = true -> is_client_event ev = true) ->
  forallb K evs = true ->
  printed evs = [] /\ existsb is_plot evs = false
  /\ existsb is_receive_timeout evs = existsb is_receive_timeout evs.
Proof.
  intros HK H. induction evs as [|[t a] evs IH]; [repeat split|].
  cbn [forallb] in H. apply andb_prop in H as [Ha H].
  destruct (IH H) as (IH1 & IH2 & _). apply HK in Ha.
  unfold printed, is_plot in *. cbn [flat_map existsb snd].
  destruct a; try discriminate Ha; cbn; rewrite ?IH1, ?IH2; repeat split.
Qed.

Lemma tcp_event_client ev : tcp_event ev = true -> is_client_event ev = true.
Proof. unfold tcp_event. intros H. now apply andb_prop in H. Qed.

Lemma udp_event_client ev : udp_event ev = true -> is_client_event ev = true.
Proof. unfold udp_event. intros H. now apply andb_prop in H. Qed.

Lemma printed_app (evs1 evs2 : list event) :
  printed (evs1 ++ evs2) = printed evs1 ++ printed evs2.
Proof. apply flat_map_app. Qed.

(** C1: for every repetition count N >= 1, on any network, a run of
    [measure_tcp_transactions] or of [measure_udp_transactions] that returns
    (every call of it came back without an error) returns exactly N
    durations; none of them is negative; and they are in the order of the
    transactions: the i-th duration is the span between the i-th pair of
    clock readings in the log. *)
Theorem measure_returns_all_durations
    (NetSt : Type) (net_step : NetSt -> call -> reply * NetSt)
    (host : string) (port : Z) (payload : bytes) (n : Z) :
  (1 <= n)%Z ->
  (forall w ds w',
     measure_tcp_transactions net_step host port payload n w = (Ok ds, w') ->
     Z.of_nat (length ds) = n /\ Forall (Qcle 0) ds
     /\ ds = spans (clock_readings (new_events w w')))
  /\ (forall w ds w',
        measure_udp_transactions net_step host port payload n w = (Ok ds, w') ->
        Z.of_nat (length ds) = n /\ Forall (Qcle 0) ds
        /\ ds = spans (clock_readings (new_events w w'))).
Proof.
  intros Hn. split; intros w ds w' E.
  - pose proof (runs_new_events _ _ _ (measure_tcp_run _ net_step host port payload n w)) as H.
    rewrite E in H. cbn [fst snd] in H.
    destruct (run_result H eq_refl) as (E1 & E2 & _ & E4). cbn [app] in E1.
    rewrite E1. repeat split; [rewrite E2; lia | exact E4].
  - pose proof (runs_new_events _ _ _ (measure_udp_run _ net_step host port payload n w)) as H.
    rewrite E in H. cbn [fst snd] in H.
    destruct (run_result H eq_refl) as (E1 & E2 & _ & E4). cbn [app] in E1.
    rewrite E1. repeat split; [rewrite E2; lia | exact E4].
Qed.

Lemma paced_app (k : nat) :
  forall ts1 ts2 lo mid hi,
    length ts1 = (2 * k)%nat ->
    paced lo ts1 mid -> paced mid ts2 hi -> paced lo (ts1 ++ ts2) hi.
Proof.
  induction k as [|k IH]; intros ts1 ts2 lo mid hi Hlen H1 H2.
  - destruct ts1; [|discriminate]. cbn in *.
    eapply paced_weaken; [|exact H2]. exact H1.
  - destruct ts1 as [|s [|e rest]]; try (cbn in Hlen; lia).
    cbn [app paced] in *. destruct H1 as (Hs & Hrest). split; [exact Hs|].
    eapply IH; [cbn in Hlen; lia | exact Hrest | exact H2].
Qed.

Lemma timeline_bounds (evs : list event) :
  forall lo hi, timeline lo evs hi ->
  forall ev, In ev evs -> (lo <= fst ev <= hi)%N.
Proof.
  induction evs as [|[t a] evs IH]; intros lo hi H ev Hin; [contradiction|].
  cbn [timeline] in H. destruct H as (H1 & H2).
  pose proof (timeline_le _ _ _ H2) as Hle.
  destruct Hin as [<- | Hin]; cbn [fst]; [lia|].
  specialize (IH _ _ H2 _ Hin). lia.
Qed.

Lemma udp_events_no_stream (evs : list event) :
  forallb udp_event evs = true -> existsb is_stream_call evs = false.
Proof.
  induction evs as [|ev evs IH]; [reflexivity|]. cbn [forallb existsb].
  intros H. apply andb_prop in H as [Hev H]. rewrite (IH H).
  unfold udp_event in Hev. apply andb_prop in Hev as [_ Hev].
  now destruct (is_stream_call ev).
Qed.

Lemma client_events_no_clock_free K (evs : list event) :
  (forall ev, K ev = true -> is_client_event ev = true) ->
  forallb K evs = true -> printed evs = [] /\ existsb is_plot evs = false.
Proof.
  intros HK H. now destruct (client_events_printed K evs HK H) as (H1 & H2 & _).
Qed.

Lemma tail_shape_quiet t size tcp_times udp_times tail r :
  tail_shape t size tcp_times udp_times tail r ->
  clock_stamps tail = [] /\ existsb is_stream_call tail = false
  /\ existsb is_dgram_call tail = false
  /\ existsb is_receive_timeout tail = false
  /\ (forall ev, In ev tail -> fst ev = t)
  /\ (forall e, r = Raise e -> tail = []).
Proof.
  intros [(-> & -> & ->) | (l1 & l2 & mt & mu & st & su & _ & _ & _ & _ & _ & _ & -> & ->)].
  - do 4 (split; [reflexivity|]). split; [intros ev []|reflexivity].
  - do 4 (split; [reflexivity|]). split; [|discriminate].
    intros ev Hin. cbn in Hin. intuition (subst; reflexivity).
Qed.

(** C8: in every run of [main], on any network, the log starts with the two
    server threads being started and the sleep of the readiness delay;
    then come the entries of the stream client and, only after all of them,
    whatever else is logged, among which no stream call: the datagram client
    issues a call only when the stream client has completed all its
    transactions, and every entry of the stream client is stamped no later
    than every later entry, so the two loops do not overlap in time.  Within
    and across the loops the clock readings are paced: each transaction ends
    no earlier than it starts and starts no earlier than the end of the one
    before plus the pacing delay. *)
Theorem main_runs_clients_in_turn
    (NetSt : Type) (net_step : NetSt -> call -> reply * NetSt)
    (host : string) (payload_size repeat : Z) (w : World NetSt) :
  let run := main net_step host payload_size repeat w in
  let evs := new_events w (snd run) in
  exists t_ready t_mid tcp rest,
    evs = (now w, Spawned TcpServer (host, TCP_PORT))
          :: (now w, Spawned UdpServer (host, UDP_PORT))
          :: (t_ready, Did (Sleep READY_DELAY) nothing) :: tcp ++ rest
    /\ (now w + READY_DELAY <= t_ready)%N
    /\ forallb tcp_event tcp = true
    /\ existsb is_stream_call rest = false
    /\ (existsb is_dgram_call rest = true ->
        length (clock_stamps tcp) = (2 * Z.to_nat repeat)%nat)
    /\ (forall ev, In ev tcp -> (t_ready <= fst ev <= t_mid)%N)
    /\ (forall ev, In ev rest -> (t_mid <= fst ev)%N)
    /\ paced (now w) (clock_stamps evs) (now (snd run)).
Proof.
  intros run evs.
  pose proof (runs_new_events _ _ _ (main_run _ net_step host payload_size repeat w))
    as H. fold run in H. fold evs in H.
  destruct H as (t1 & t2 & tcp & udp & tail & r_tcp & Eevs & Ht1 & Htcp & Hrest).
  exists t1, t2, tcp, (udp ++ tail). rewrite Eevs.
  split; [reflexivity|]. split; [exact Ht1|].
  split; [exact (run_events Htcp)|].
  assert (clock_stamps ([(now w, Spawned TcpServer (host, TCP_PORT));
                         (now w, Spawned UdpServer (host, UDP_PORT));
                         (t1, Did (Sleep READY_DELAY) nothing)] ++ tcp ++ udp ++ tail)
          = clock_stamps tcp ++ clock_stamps udp ++ clock_stamps tail) as Est.
  { rewrite !clock_stamps_app. reflexivity. }
  rewrite Est.
  destruct Hrest as [(e & -> & Er & -> & -> & Ehi)
                    | (tcp_times & r_udp & -> & Hudp & Htail)].
  - cbn [app existsb clock_stamps flat_map]. rewrite !app_nil_r.
    split; [reflexivity|]. split; [discriminate|].
    split; [apply (timeline_bounds _ _ _ (run_timeline Htcp))|].
    split; [intros ev []|].
    rewrite Ehi. eapply paced_weaken; [|exact (run_paced Htcp)]. lia.
  - destruct (run_result Htcp eq_refl) as (_ & _ & Elen & _).
    assert (clock_stamps tail = [] /\ existsb is_stream_call tail = false
            /\ (forall ev, In ev tail -> fst ev = now (snd run))) as (Ec & Es & Et).
    { destruct Htail as [(e & -> & Er & ->) | (udp_times & -> & Htail)].
      - repeat split; try reflexivity. intros ev [].
      - destruct (tail_shape_quiet _ _ _ _ _ _ Htail) as (H1 & H2 & _ & _ & H5 & _).
        auto. }
    rewrite Ec, app_nil_r.
    split; [rewrite existsb_app; apply orb_false_intro;
            [exact (udp_events_no_stream _ (run_events Hudp)) | exact Es]|].
    split; [intros _; exact Elen|].
    split; [apply (timeline_bounds _ _ _ (run_timeline Htcp))|].
    split.
    + intros ev Hin. apply in_app_or in Hin as [Hin | Hin].
      * apply (timeline_bounds _ _ _ (run_timeline Hudp)) in Hin. lia.
      * rewrite (Et _ Hin). apply (timeline_le _ _ _ (run_timeline Hudp)).
    + eapply paced_app; [exact Elen | | exact (run_paced Hudp)].
      eapply paced_weaken; [|exact (run_paced Htcp)]. lia.
Qed.

Lemma existsb_app_false {A} (f : A -> bool) (l1 l2 : list A) :
  existsb f l1 = false -> existsb f l2 = false -> existsb f (l1 ++ l2) = false.
Proof. intros H1 H2. rewrite existsb_app. now apply orb_false_intro. Qed.

Lemma existsb_app_true {A} (f : A -> bool) (l1 l2 : list A) :
  existsb f (l1 ++ l2) = true -> existsb f l1 = true \/ existsb f l2 = true.
Proof. rewrite existsb_app. apply orb_prop. Qed.

(** C6: on any network, when a receive call of a measuring client gives up
    on its timeout, the measurement does not return: the timeout exception
    leaves [measure_tcp_transactions] or [measure_udp_transactions], the
    transaction that timed out has a start reading of the clock and no end
    reading (no duration for it), and in [main] the same exception ends the
    run before anything is printed or plotted. *)
Theorem receive_timeout_ends_run
    (NetSt : Type) (net_step : NetSt -> call -> reply * NetSt)
    (host : string) (port : Z) (payload : bytes) (n payload_size : Z)
    (w : World NetSt) :
  (let run := measure_tcp_transactions net_step host port payload n w in
   existsb is_receive_timeout (new_events w (snd run)) = true ->
   fst run = Raise SocketTimeout
   /\ Nat.odd (length (clock_stamps (new_events w (snd run)))) = true)
  /\ (let run := measure_udp_transactions net_step host port payload n w in
      existsb is_receive_timeout (new_events w (snd run)) = true ->
      fst run = Raise SocketTimeout
      /\ Nat.odd (length (clock_stamps (new_events w (snd run)))) = true)
  /\ (let run := main net_step host payload_size n w in
      existsb is_receive_timeout (new_events w (snd run)) = true ->
      fst run = Raise SocketTimeout
      /\ printed (new_events w (snd run)) = []
      /\ existsb is_plot (new_events w (snd run)) = false).
Proof.
  split; [|split]; intros run Hto.
  - pose proof (runs_new_events _ _ _ (measure_tcp_run _ net_step host port payload n w))
      as H. fold run in H.
    pose proof (receive_timeout_raises _ _ _ _ _ _ _ H Hto) as Er.
    split; [exact Er | exact (run_raised H Er)].
  - pose proof (runs_new_events _ _ _ (measure_udp_run _ net_step host port payload n w))
      as H. fold run in H.
    pose proof (receive_timeout_raises _ _ _ _ _ _ _ H Hto) as Er.
    split; [exact Er | exact (run_raised H Er)].
  - pose proof (runs_new_events _ _ _ (main_run _ net_step host payload_size n w))
      as H. fold run in H.
    destruct H as (t1 & t2 & tcp & udp & tail & r_tcp & Eevs & Ht1 & Htcp & Hrest).
    rewrite Eevs in *.
    destruct (client_events_no_clock_free _ _ tcp_event_client (run_events Htcp))
      as (Ptcp & Ltcp).
    apply existsb_app_true in Hto as [Hto | Hto]; [discriminate Hto|].
    destruct Hrest as [(e & -> & Er & -> & -> & Ehi)
                      | (tcp_times & r_udp & -> & Hudp & Htail)].
    + rewrite !app_nil_r in *.
      pose proof (receive_timeout_raises _ _ _ _ _ _ _ Htcp Hto) as E.
      injection E as ->. split; [exact Er|].
      rewrite printed_app, Ptcp. split; [reflexivity|].
      now apply existsb_app_false.
    + apply existsb_app_true in Hto as [Hto | Hto].
      { pose proof (receive_timeout_raises _ _ _ _ _ _ _ Htcp Hto). discriminate. }
      destruct (client_events_no_clock_free _ _ udp_event_client (run_events Hudp))
        as (Pudp & Ludp).
      destruct Htail as [(e & -> & Er & ->) | (udp_times & -> & Htail)].
      * rewrite !app_nil_r in *.
        pose proof (receive_timeout_raises _ _ _ _ _ _ _ Hudp Hto) as E.
        injection E as ->. split; [exact Er|].
        rewrite !printed_app, Ptcp, Pudp. split; [reflexivity|].
        apply existsb_app_false; [reflexivity|].
        now apply existsb_app_false.
      * exfalso. apply existsb_app_true in Hto as [Hto | Hto].
        -- pose proof (receive_timeout_raises _ _ _ _ _ _ _ Hudp Hto). discriminate.
        -- destruct (tail_shape_quiet _ _ _ _ _ _ Htail) as (_ & _ & _ & H4 & _).
           congruence.
Qed.

(** C3: for a non-empty sequence of durations and any reordering of it, the
    mean, the median, the population standard deviation and the count are
    the same, and so is the summary line: [summarize] is a function of the
    numbers in the sequence, not of their order (nor of anything else: it
    returns, it does not raise, and two calls on the same sequence are the
    case of the identical reordering). *)
Theorem summarize_order_independent (name : string) (arr arr' : list Qc) :
  arr <> [] -> Permutation arr arr' ->
  stats.mean arr' = stats.mean arr
  /\ stats.median arr' = stats.median arr
  /\ stats.pstdev arr' = stats.pstdev arr
  /\ length arr' = length arr
  /\ summarize name arr' = summarize name arr
  /\ is_ok (summarize name arr) = true.
Proof.
  intros Hne P. apply Permutation_sym in P.
  pose proof (StatsFacts.mean_invariant _ _ P) as Em.
  pose proof (StatsFacts.median_invariant _ _ P) as Ed.
  pose proof (StatsFacts.pstdev_invariant _ _ P) as Es.
  pose proof (Permutation_length P) as El.
  repeat split; auto.
  - unfold summarize. now rewrite Em, Ed, Es, El.
  - destruct arr as [|x arr]; [contradiction|].
    destruct (summarize_line name x arr) as (m & md & sd & _ & _ & _ & ->).
    reflexivity.
Qed.

Lemma summarize_order_independent_witness :
  summarize "UDP per-transaction" [ms 1; ms 2; ms 3]
  = summarize "UDP per-transaction" [ms 3; ms 1; ms 2].
Proof.
  assert ([ms 3; ms 1; ms 2] <> []) as Hne by discriminate.
  pose proof (Permutation_cons_append [ms 1; ms 2] (ms 3)) as P.
  exact (proj1 (proj2 (proj2 (proj2 (proj2
           (summarize_order_independent "UDP per-transaction"
              [ms 3; ms 1; ms 2] [ms 1; ms 2; ms 3] Hne P)))))).
Defined.

(** C2: for a sequence of one duration [x], the mean is [x], the median is
    [x], the population standard deviation is 0 and the count is 1; the
    summary line shows them; and a run of [main] with a repetition count of
    1 that comes to its end has printed, for each protocol, a line with
    [std=0.000000e+00] and [n=1]. *)
Theorem single_duration_summary (x : Qc) :
  stats.mean [x] = Ok x
  /\ stats.median [x] = Ok x
  /\ stats.pstdev [x] = Ok 0%Qc
  /\ length [x] = 1%nat
  /\ (forall name,
        summarize name [x]
        = Ok (summary_line name (format_e6 x) (format_e6 x) "0.000000e+00" 1))
  /\ (forall (NetSt : Type) (net_step : NetSt -> call -> reply * NetSt)
             (host : string) (payload_size : Z) (w : World NetSt),
        let run := main net_step host payload_size 1 w in
        fst run = Ok tt ->
        exists y z,
          printed (new_events w (snd run))
          = [summary_line "TCP per-transaction" (format_e6 y) (format_e6 y)
               "0.000000e+00" 1;
             summary_line "UDP per-transaction" (format_e6 z) (format_e6 z)
               "0.000000e+00" 1]).
Proof.
  assert (forall y name,
            summarize name [y]
            = Ok (summary_line name (format_e6 y) (format_e6 y) "0.000000e+00" 1))
    as Hline.
  { intros y name. unfold summarize.
    rewrite StatsFacts.mean_single, StatsFacts.median_single,
      StatsFacts.pstdev_single. reflexivity. }
  split; [apply StatsFacts.mean_single|].
  split; [apply StatsFacts.median_single|].
  split; [apply StatsFacts.pstdev_single|].
  split; [reflexivity|]. split; [apply Hline|].
  intros NetSt net_step host payload_size w run Hok.
  pose proof (runs_new_events _ _ _ (main_run _ net_step host payload_size 1 w)) as H.
  fold run in H. rewrite Hok in H.
  destruct H as (t1 & t2 & tcp & udp & tail & r_tcp & Eevs & Ht1 & Htcp & Hrest).
  destruct Hrest as [(e & _ & Er & _) | (tcp_times & r_udp & -> & Hudp & Htail)];
    [discriminate Er|].
  destruct Htail as [(e & _ & Er & _) | (udp_times & -> & Htail)];
    [discriminate Er|].
  pose proof (client_run_nonempty Htcp) as L1.
  pose proof (client_run_nonempty Hudp) as L2.
  destruct tcp_times as [|y [|? ?]]; try discriminate L1.
  destruct udp_times as [|z [|? ?]]; try discriminate L2.
  destruct Htail as [(E & _) | (l1 & l2 & mt & mu & st & su & E1 & E2 & _ & _ & _ & _ & -> & _)];
    [discriminate E|].
  rewrite Hline in E1, E2. injection E1 as <-. injection E2 as <-.
  exists y, z. rewrite Eevs.
  destruct (client_events_no_clock_free _ _ tcp_event_client (run_events Htcp))
    as (Ptcp & _).
  destruct (client_events_no_clock_free _ _ udp_event_client (run_events Hudp))
    as (Pudp & _).
  rewrite !printed_app, Ptcp, Pudp. reflexivity.
Qed.

(** C7 as the specification words it (a space between each number and the
    unit) does not hold: the line [summarize] builds for one duration of a
    millisecond is not of that form, whatever the three numbers. *)
Lemma summary_line_is_not_spaced :
  ~ (exists m md sd,
       is_sci m = true /\ is_sci md = true /\ is_sci sd = true
       /\ summarize "TCP per-transaction" [ms 1]
          = Ok (spaced_line "TCP per-transaction" m md sd 1)).
Proof.
  intros (m & md & sd & Hm & _ & _ & H).
  assert (summarize "TCP per-transaction" [ms 1]
          = Ok "TCP per-transaction: mean=1.000000e-03s, median=1.000000e-03s, std=0.000000e+00s, n=1"%string)
    as E by (vm_compute; reflexivity).
  rewrite E in H. injection H as H.
  apply (f_equal upto_space) in H.
  rewrite (upto_space_app m _ (is_sci_no_space _ Hm)) in H.
  subst m. vm_compute in Hm. discriminate Hm.
Qed.

(** C7, amended: for every label and every non-empty sequence of durations
    the line that [summarize] returns is
    ["<label>: mean=<sci>s, median=<sci>s, std=<sci>s, n=<count>"], the
    unit directly after each number, where the three numbers are the mean,
    the median and the population standard deviation in the notation
    [d.dddddde+dd] and the count is the length of the sequence; and in every
    run of [main] all that is printed is printed before anything is plotted:
    when there is a plot, the two summary lines, and nothing else, were
    printed before it. *)
Theorem summary_line_format (name : string) (arr : list Qc) :
  arr <> [] ->
  (exists m md sd,
     stats.mean arr = Ok m /\ stats.median arr = Ok md /\ stats.pstdev arr = Ok sd
     /\ summarize name arr
        = Ok (summary_line name (format_e6 m) (format_e6 md) (format_e6 sd)
                           (length arr))
     /\ is_sci (format_e6 m) = true /\ is_sci (format_e6 md) = true
     /\ is_sci (format_e6 sd) = true)
  /\ (forall (NetSt : Type) (net_step : NetSt -> call -> reply * NetSt)
             (host : string) (payload_size repeat : Z) (w : World NetSt),
        let evs := new_events w (snd (main net_step host payload_size repeat w)) in
        exists pre post,
          evs = pre ++ post
          /\ existsb is_plot pre = false
          /\ printed post = []
          /\ (existsb is_plot evs = true ->
              exists tcp_times udp_times l1 l2,
                summarize "TCP per-transaction" tcp_times = Ok l1
                /\ summarize "UDP per-transaction" udp_times = Ok l2
                /\ printed pre = [l1; l2])).
Proof.
  intros Hne. split.
  - destruct arr as [|x arr]; [contradiction|].
    destruct (summarize_line name x arr) as (m & md & sd & Em & Ed & Es & El).
    exists m, md, sd. rewrite !format_e6_is_sci. repeat split; assumption.
  - intros NetSt net_step host payload_size repeat w evs.
    pose proof (runs_new_events _ _ _ (main_run _ net_step host payload_size repeat w))
      as H. fold evs in H.
    destruct H as (t1 & t2 & tcp & udp & tail & r_tcp & Eevs & Ht1 & Htcp & Hrest).
    destruct (client_events_no_clock_free _ _ tcp_event_client (run_events Htcp))
      as (Ptcp & Ltcp).
    assert (printed udp = [] -> existsb is_plot udp = false -> tail = [] ->
              exists pre post,
                evs = pre ++ post /\ existsb is_plot pre = false
                /\ printed post = []
                /\ (existsb is_plot evs = true ->
                    exists tcp_times udp_times l1 l2,
                      summarize "TCP per-transaction" tcp_times = Ok l1
                      /\ summarize "UDP per-transaction" udp_times = Ok l2
                      /\ printed pre = [l1; l2])) as Hquiet.
    { intros Pudp Ludp ->. exists evs, []. rewrite app_nil_r.
      assert (existsb is_plot evs = false) as Enp.
      { rewrite Eevs, app_nil_r. apply existsb_app_false; [reflexivity|].
        now apply existsb_app_false. }
      repeat split; auto. rewrite Enp. discriminate. }
    destruct Hrest as [(e & -> & Er & -> & -> & Ehi)
                      | (tcp_times & r_udp & -> & Hudp & Htail)];
      [now apply Hquiet|].
    destruct (client_events_no_clock_free _ _ udp_event_client (run_events Hudp))
      as (Pudp & Ludp).
    destruct Htail as [(e & -> & Er & ->) | (udp_times & -> & Htail)];
      [now apply Hquiet|].
    destruct Htail as [(_ & -> & _)
      | (l1 & l2 & mt & mu & st & su & E1 & E2 & _ & _ & _ & _ & Etail & _)];
      [now apply Hquiet|].
    exists ([(now w, Spawned TcpServer (host, TCP_PORT));
             (now w, Spawned UdpServer (host, UDP_PORT));
             (t1, Did (Sleep READY_DELAY) nothing)] ++ tcp ++ udp
            ++ firstn 2 tail), (skipn 2 tail).
    split; [rewrite Eevs, <- !app_assoc, firstn_skipn; reflexivity|].
    rewrite Etail. cbn [firstn skipn].
    split; [apply existsb_app_false; [reflexivity|];
            apply existsb_app_false; [exact Ltcp|];
            apply existsb_app_false; [exact Ludp|reflexivity]|].
    split; [reflexivity|]. intros _.
    exists tcp_times, udp_times, l1, l2. split; [exact E1|]. split; [exact E2|].
    rewrite !printed_app, Ptcp, Pudp. reflexivity.
Qed.


(** ** The servers *)

Section Servers.

Variable NetSt : Type.
Variable net_step : NetSt -> call -> reply * NetSt.

Lemma accept_cases (s : socket) (w : World NetSt) :
  exists st,
    (exists t an, (now w <= t)%N
       /\ sock_accept net_step s w
          = match an with
            | Returns _ p =>
                (Ok (mkSocket (next_fd w) SOCK_STREAM None, p),
                 mkWorld t (S (next_fd w)) st
                   ((trace w ++ [(t, Did (Accept (fd s)) an)])
                      ++ [(t, Opened (next_fd w) SOCK_STREAM)]))
            | Fails e => (Raise e, after w t st (Did (Accept (fd s)) an))
            end)
    \/ (timeout s = None /\ sock_accept net_step s w = (Pending, stalled w st)).
Proof.
  unfold sock_accept. rewrite run_bind.
  destruct (blocking_cases _ net_step (timeout s) (Accept (fd s)) w)
    as (st & [(t & a & Ht & Hb & Hc) | (Hc & Hb)]); exists st; rewrite Hb.
  - left. exists t, a. split; [exact Ht|]. now destruct a.
  - right. split; [exact Hc | reflexivity].
Qed.

Lemma run_try {A} (body : M NetSt A) (catches : exn -> bool) (handler : M NetSt A)
    (w : World NetSt) :
  try_except body catches handler w
  = match body w with
    | (Raise e, w') => if catches e then handler w' else (Raise e, w')
    | r => r
    end.
Proof. reflexivity. Qed.

Lemma run_forever (k : nat) (body : M NetSt unit) (w : World NetSt) :
  forever (S k) body w
  = match body w with
    | (Ok _, w') => forever k body w'
    | (Raise e, w') => (Raise e, w')
    | (Pending, w') => (Pending, w')
    end.
Proof. reflexivity. Qed.

End Servers.

Ltac serve :=
  first
    [ progress (unfold tcp_serve_one, tcp_handle, udp_serve_one, with_socket;
                rewrite ?run_bind, ?run_finally, ?run_try;
                cbn [ret]; tidy)
    | match goal with
      | |- context [sock_accept ?nst ?s ?w] =>
          step_with (accept_cases _ nst s w); tidy
      | |- context [if is_ConnectionError ?e then _ else _] =>
          let E := fresh "Ece" in destruct (is_ConnectionError e) eqn:E; tidy
      | |- context [truthy ?d] =>
          destruct d; cbn [truthy]; tidy
      end
    | step_call; tidy ].

Section ServerRuns.

Variable NetSt : Type.
Variable net_step : NetSt -> call -> reply * NetSt.

Ltac server_facts :=
  cbn [stream_reads stream_writes dgram_reads dgram_writes flat_map app fst snd
       filter nonempty_read nonempty_dgram truthy zero_reads_closed
       empty_dgrams_unanswered existsb is_fatal failures raised orb negb
       nothing length is_ConnectionError].

Ltac name_server_events :=
  first [ name_events
        | exists []; rewrite app_nil_r; split; [reflexivity|] ].

Ltac echo_fact :=
  first [ exists []; split; [reflexivity | cbn; lia]
        | eexists [_]; split; [reflexivity | cbn; lia] ].

Ltac use_class :=
  repeat match goal with
         | H : is_ConnectionError _ = _ |- _ => rewrite H
         end;
  cbn [negb orb].

Ltac exit_server :=
  name_server_events; constructor; server_facts; use_class;
  [ discriminate
  | echo_fact
  | repeat split; auto
  | intros; congruence
  | intros; congruence ].

Ltac go_on IH :=
  match goal with
  | |- let '(r, w') := ?loop ?w1 in _ =>
      let H := fresh "H" in let r := fresh "r" in let w' := fresh "w'" in
      let evs := fresh "evs" in let Htr := fresh "Htr" in
      let Hlo := fresh "Hlo" in let rest := fresh "rest" in
      let Hec := fresh "Hec" in let Hlen := fresh "Hlen" in
      let Hq := fresh "Hq" in let Hal := fresh "Hal" in let Hfa := fresh "Hfa" in
      pose proof (IH w1) as H; unfold runs in H; destruct (loop w1) as [r w'];
      destruct H as (evs & Htr & [Hlo (rest & Hec & Hlen) Hq Hal Hfa]);
      tidy; rewrite Htr; name_events; constructor; server_facts; use_class;
      [ exact Hlo
      | exists rest; split; [try f_equal; exact Hec | exact Hlen]
      | repeat split; auto
      | exact Hal
      | exact Hfa ]
  end.

Lemma tcp_server_loop (s : socket) :
  forall fuel w,
    runs (forever fuel (tcp_serve_one net_step s)) w
         (fun evs r _ => tcp_server_run evs r).
Proof.
  induction fuel as [|k IH]; intros w.
  - unfold runs. cbn [forever]. exists []. rewrite app_nil_r.
    split; [reflexivity|]. constructor; server_facts; try easy.
    exists []. split; [reflexivity | cbn; lia].
  - unfold runs. rewrite run_forever.
    set (loop := forever k (tcp_serve_one net_step s)) in *.
    repeat serve.
    all: try solve [exit_server].
    all: go_on IH.
Qed.

(** One turn of the accept loop, whatever the network answers. *)
Lemma tcp_turn_run (s : socket) (w : World NetSt) :
  runs (tcp_serve_one net_step s) w (fun evs r _ => tcp_turn evs r).
Proof.
  unfold runs. repeat serve.
  all: name_server_events; constructor; server_facts;
    unfold is_zero_read; cbn [snd orb]; use_class.
  all: try solve [ intros; congruence
                 | intros; split; reflexivity
                 | let e' := fresh in let H := fresh in
                   intros e' H; injection H as <-; split; reflexivity ].
Qed.

Ltac exit_udp_server :=
  name_server_events; constructor; server_facts;
  [ discriminate
  | echo_fact
  | repeat split; auto
  | exact I
  | reflexivity ].

Ltac go_on_udp IH :=
  match goal with
  | |- let '(r, w') := ?loop ?w1 in _ =>
      let H := fresh "H" in let r := fresh "r" in let w' := fresh "w'" in
      let evs := fresh "evs" in let Htr := fresh "Htr" in
      let Hlo := fresh "Hlo" in let rest := fresh "rest" in
      let Hec := fresh "Hec" in let Hlen := fresh "Hlen" in
      let Hq := fresh "Hq" in let Hfa := fresh "Hfa" in let Hst := fresh "Hst" in
      pose proof (IH w1) as H; unfold runs in H; destruct (loop w1) as [r w'];
      destruct H as (evs & Htr & [Hlo (rest & Hec & Hlen) Hq Hst Hfa]);
      tidy; rewrite Htr; name_events; constructor; server_facts;
      [ exact Hlo
      | exists rest; split; [try f_equal; exact Hec | exact Hlen]
      | repeat split; auto
      | exact I
      | exact Hfa ]
  end.

Lemma udp_server_loop (s : socket) :
  forall fuel w,
    runs (forever fuel (udp_serve_one net_step s)) w
         (fun evs r _ => udp_server_run evs r).
Proof.
  induction fuel as [|k IH]; intros w.
  - unfold runs. cbn [forever]. exists []. rewrite app_nil_r.
    split; [reflexivity|]. constructor; server_facts; try easy.
    exists []. split; [reflexivity | cbn; lia].
  - unfold runs. rewrite run_forever.
    set (loop := forever k (udp_serve_one net_step s)) in *.
    repeat serve.
    all: try solve [exit_udp_server].
    all: go_on_udp IH.
Qed.

End ServerRuns.

(** ** The loopback network *)

Lemma take_take (a b : N) (d : bytes) : take a (take b d) = take (N.min a b) d.
Proof. unfold take. now rewrite firstn_firstn, N2Nat.inj_min. Qed.

Lemma take_nil (a : N) : take a [] = [].
Proof. unfold take. apply firstn_nil. Qed.

Lemma truthy_take (p : positive) (d : bytes) : truthy (take (Npos p) d) = truthy d.
Proof.
  unfold take. change (N.to_nat (Npos p)) with (Pos.to_nat p).
  destruct (Pos2Nat.is_succ p) as (k & ->). now destruct d.
Qed.

Lemma take_all (a : N) (d : bytes) :
  (N.of_nat (length d) <= a)%N -> take a d = d.
Proof. intros H. unfold take. apply firstn_all2. lia. Qed.

Lemma take_length (n : N) (d : bytes) : (N.of_nat (length (take n d)) <= n)%N.
Proof. unfold take. pose proof (firstn_le_length (N.to_nat n) d). lia. Qed.

#[local] Opaque take drop.

Lemma truthy_take_buf (d : bytes) : truthy (take BUFSIZE d) = truthy d.
Proof. apply (truthy_take 65536). Qed.

(** Evaluation of a program on the wire or on the loopback network, where
    the answers of the network are known. *)
Ltac eval_calls :=
  repeat (rewrite ?run_bind, ?run_finally, ?run_try;
          unfold sock_accept, sock_recv, sock_sendall, sock_close, sock_recvfrom,
            sock_sendto, sock_connect, sleep, blocking;
          cbn [net wire_step listener fd kind timeout clip outcome_of after now
               next_fd trace far_end arriving hung_up leaving peer_of payload_of
               fst snd ret nothing]).

(** One turn of the stream server on the wire, when a chunk has arrived:
    it reads it (at most [BUFSIZE] bytes of it), writes back what it read,
    and closes. *)
Lemma tcp_turn_on_wire (l : Link) (chunk : bytes) (hung : bool) (th : World Wire) :
  truthy chunk = true ->
  let th' := turn (tcp_serve_one wire_step (listener SOCK_STREAM)) l [chunk] hung th in
  leaving (net th') = [take BUFSIZE chunk]
  /\ trace th'
     = trace th
       ++ [(now th, Did (Accept 0) (Returns [] (client_addr l)));
           (now th, Opened (next_fd th) SOCK_STREAM);
           (now th, Did (Recv (next_fd th) BUFSIZE)
                        (Returns (take BUFSIZE chunk) (client_addr l)));
           (now th, Did (SendAll (next_fd th) (take BUFSIZE chunk)) nothing);
           (now th, Did (Close (next_fd th)) nothing)].
Proof.
  intros Hc th'. subst th'.
  unfold turn, tcp_serve_one, tcp_handle, with_socket.
  eval_calls. rewrite truthy_take_buf, Hc. eval_calls.
  rewrite !N.add_0_r, <- !app_assoc. split; reflexivity.
Qed.

(** A turn of the stream server when the client has hung up without
    sending: a zero-byte read, no write, and the close. *)
Lemma tcp_turn_hung_up (l : Link) (th : World Wire) :
  let th' := turn (tcp_serve_one wire_step (listener SOCK_STREAM)) l [] true th in
  leaving (net th') = []
  /\ trace th'
     = trace th
       ++ [(now th, Did (Accept 0) (Returns [] (client_addr l)));
           (now th, Opened (next_fd th) SOCK_STREAM);
           (now th, Did (Recv (next_fd th) BUFSIZE) (Returns [] (client_addr l)));
           (now th, Did (Close (next_fd th)) nothing)].
Proof.
  intros th'. subst th'.
  unfold turn, tcp_serve_one, tcp_handle, with_socket.
  eval_calls. rewrite take_nil. cbn [truthy]. eval_calls.
  rewrite !N.add_0_r, <- !app_assoc. split; reflexivity.
Qed.

(** A turn of the datagram server when a datagram has arrived: it sends
    it back to where it came from, unless it is empty. *)
Lemma udp_turn_on_wire (l : Link) (d : bytes) (th : World Wire) :
  let th' := turn (udp_serve_one wire_step (listener SOCK_DGRAM)) l [d] false th in
  leaving (net th') = (if truthy d then [take BUFSIZE d] else [])
  /\ trace th'
     = trace th
       ++ (now th, Did (RecvFrom 0 BUFSIZE) (Returns (take BUFSIZE d) (client_addr l)))
          :: (if truthy d
              then [(now th, Did (SendTo 0 (take BUFSIZE d) (client_addr l)) nothing)]
              else []).
Proof.
  intros th'. subst th'. unfold turn, udp_serve_one.
  eval_calls. rewrite truthy_take_buf. destruct (truthy d); eval_calls;
    rewrite ?N.add_0_r, <- ?app_assoc; split; reflexivity.
Qed.

(** The calls of the socket module in terms of the answer of the
    network. *)
Section CallEquations.

Variable NetSt : Type.
Variable net_step : NetSt -> call -> reply * NetSt.

Lemma call_eq {A} (f : answer -> A) (tmo : option N) (c : call) (w : World NetSt) :
  bind (blocking net_step tmo c) (fun a => ret (f a)) w = answered net_step f tmo c w.
Proof.
  unfold answered, bind, blocking.
  destruct (net_step (net w) c) as [[el a|] st]; destruct tmo as [limit|];
    try reflexivity.
  - destruct (el <? limit)%N; [|reflexivity]. now destruct (clip c a).
  - now destruct (clip c a).
Qed.

Lemma sock_connect_eq s a w :
  sock_connect net_step s a w
  = answered net_step (fun _ => tt) (timeout s) (Connect (fd s) a) w.
Proof. apply (call_eq (fun _ => tt)). Qed.

Lemma sock_sendall_eq s d w :
  sock_sendall net_step s d w
  = answered net_step (fun _ => tt) (timeout s) (SendAll (fd s) d) w.
Proof. apply (call_eq (fun _ => tt)). Qed.

Lemma sock_sendto_eq s d a w :
  sock_sendto net_step s d a w
  = answered net_step (fun _ => tt) (timeout s) (SendTo (fd s) d a) w.
Proof. apply (call_eq (fun _ => tt)). Qed.

Lemma sock_recv_eq s n w :
  sock_recv net_step s n w = answered net_step payload_of (timeout s) (Recv (fd s) n) w.
Proof. apply (call_eq payload_of). Qed.

Lemma sock_recvfrom_eq s n w :
  sock_recvfrom net_step s n w
  = answered net_step (fun a => (payload_of a, peer_of a)) (timeout s) (RecvFrom (fd s) n) w.
Proof. apply (call_eq (fun a => (payload_of a, peer_of a))). Qed.

Lemma sock_close_eq s w :
  sock_close net_step s w
  = (Ok tt,
     after w (match fst (net_step (net w) (Close (fd s))) with
              | Reply el _ => now w + el
              | Never => now w
              end)%N
           (snd (net_step (net w) (Close (fd s)))) (Did (Close (fd s)) nothing)).
Proof. unfold sock_close. now destruct (net_step (net w) (Close (fd s))). Qed.

Lemma sleep_eq ns w :
  sleep net_step ns w
  = (Ok tt,
     after w (now w + ns + match fst (net_step (net w) (Sleep ns)) with
                           | Reply el _ => el
                           | Never => 0
                           end)%N
           (snd (net_step (net w) (Sleep ns))) (Did (Sleep ns) nothing)).
Proof. unfold sleep. now destruct (net_step (net w) (Sleep ns)). Qed.

End CallEquations.

Ltac eval_head :=
  rewrite ?run_bind, ?run_finally;
  rewrite ?sock_connect_eq, ?sock_sendall_eq, ?sock_sendto_eq, ?sock_recv_eq,
    ?sock_recvfrom_eq, ?sock_close_eq, ?sleep_eq;
  unfold answered;
  cbn [net fd kind timeout clip after now next_fd trace stalled
       peer_of payload_of fst snd ret nothing perf_counter socket_new log
       result_of loopback_step tcp_thread udp_thread connected upstream served
       downstream echoes app].

Ltac split_on_condition :=
  match goal with
  | H : endpoint_eqb ?a ?b = _ |- context [endpoint_eqb ?a ?b] => rewrite H
  | H : (?x <? ?y)%N = _ |- context [(?x <? ?y)%N] => rewrite H
  | H : truthy ?d = _ |- context [truthy ?d] => rewrite H
  | |- context [if endpoint_eqb ?a ?b then _ else _] =>
      let E := fresh "Eaddr" in destruct (endpoint_eqb a b) eqn:E
  | |- context [if (?x <? ?y)%N then _ else _] =>
      let E := fresh "Elt" in destruct (x <? y)%N eqn:E
  | |- context [if truthy ?d then _ else _] =>
      let E := fresh "Etr" in destruct (truthy d) eqn:E
  | |- context [if Nat.eqb ?x ?x then _ else _] => rewrite Nat.eqb_refl
  end.

Ltac eval_client :=
  unfold with_socket, settimeout, setsockopt;
  repeat first [progress eval_head | split_on_condition].

Lemma one_read_twice (l : Link) (payload : bytes) :
  take BUFSIZE (chunk_of l (concat [take BUFSIZE (chunk_of l payload)]))
  = one_read l payload.
Proof.
  unfold chunk_of, one_read. cbn [concat]. rewrite app_nil_r, !take_take.
  f_equal. lia.
Qed.

Ltac name_loopback_events :=
  cbn [trace after]; rewrite <- ?app_assoc; eexists; split; [reflexivity|];
  cbn [app received sent flat_map snd].

Lemma truthy_chunk (l : Link) (d : bytes) : truthy (chunk_of l d) = truthy d.
Proof. apply truthy_take. Qed.

Lemma tcp_loop_on_loopback (l : Link) (host : string) (port : Z) (payload : bytes) :
  forall n ds w,
    runs (tcp_loop (loopback_step l) host port payload n ds) w
         (fun evs r _ => Forall (eq (one_read l payload)) (received evs)).
Proof.
  induction n as [|k IH]; intros ds w.
  - unfold runs. cbn [tcp_loop ret]. exists []. rewrite app_nil_r.
    split; [reflexivity | constructor].
  - destruct w as [t0 fd0 [tcpth udpth conn up srv down ech] tr].
    unfold runs. cbn [tcp_loop]. eval_client.
    all: try solve [name_loopback_events; constructor].
    match goal with |- let '(r, w') := ?f ?w1 in _ =>
      pose proof (IH (ds ++ [seconds (t0 + latency l + latency l + latency l
                                      + latency l) - seconds t0]) w1) as H;
      unfold runs in H; destruct (f w1) as [r w'];
      destruct H as (evs & Htr & Hall) end.
    rewrite Htr. name_loopback_events. constructor; [|exact Hall].
    rewrite (proj1 (tcp_turn_on_wire l (chunk_of l payload) false tcpth
                      (eq_trans (truthy_chunk l payload) Etr))).
    symmetry. apply one_read_twice.
Qed.

Lemma udp_loop_on_loopback (l : Link) (c : socket) (host : string) (port : Z)
    (payload : bytes) :
  timeout c = Some TIMEOUT ->
  forall n ds w,
    echoes (net w) = [] ->
    runs (udp_loop (loopback_step l) c host port payload n ds) w
         (fun evs r _ => Forall (eq payload) (received evs)).
Proof.
  destruct c as [cfd ck ctm]. cbn [timeout]. intros ->.
  induction n as [|k IH]; intros ds w Hech.
  - unfold runs. cbn [udp_loop ret]. exists []. rewrite app_nil_r.
    split; [reflexivity | constructor].
  - destruct w as [t0 fd0 [tcpth udpth conn up srv down ech] tr].
    cbn [net echoes] in Hech. subst ech.
    unfold runs. cbn [udp_loop]. eval_client.
    all: try solve [name_loopback_events; constructor].
    rewrite (proj1 (udp_turn_on_wire l payload udpth)).
    destruct (truthy payload) eqn:Etr; eval_client.
    all: try solve [name_loopback_events; constructor].
    match goal with |- let '(r, w') := ?f ?w1 in _ =>
      match f with context [?ds0 ++ [?dt]] =>
        pose proof (IH (ds0 ++ [dt]) w1 eq_refl) as H end;
      unfold runs in H; destruct (f w1) as [r w'];
      destruct H as (evs & Htr & Hall) end.
    rewrite Htr. name_loopback_events. constructor; [|exact Hall].
    rewrite take_take, take_all; [reflexivity|].
    apply N.ltb_ge in Elt. unfold UDP_MAX in Elt. unfold BUFSIZE. lia.
Qed.

Lemma endpoint_eqb_refl (a : endpoint) : endpoint_eqb a a = true.
Proof. unfold endpoint_eqb. now rewrite String.eqb_refl, Z.eqb_refl. Qed.

Lemma measure_tcp_on_loopback (l : Link) (host : string) (port : Z)
    (payload : bytes) (n : Z) (w : World Loopback) :
  Forall (eq (one_read l payload))
    (received (new_events w
       (snd (measure_tcp_transactions (loopback_step l) host port payload n w)))).
Proof.
  exact (runs_new_events _ _ _
           (tcp_loop_on_loopback l host port payload (Z.to_nat n) [] w)).
Qed.

Lemma measure_udp_on_loopback (l : Link) (host : string) (port : Z)
    (payload : bytes) (n : Z) (w : World Loopback) :
  echoes (net w) = [] ->
  Forall (eq payload)
    (received (new_events w
       (snd (measure_udp_transactions (loopback_step l) host port payload n w)))).
Proof.
  intros Hech.
  apply (runs_new_events
           (measure_udp_transactions (loopback_step l) host port payload n) w
           (fun evs _ _ => Forall (eq payload) (received evs))).
  unfold runs, measure_udp_transactions.
  rewrite run_bind. cbn [socket_new]. unfold with_socket. rewrite run_finally.
  rewrite run_bind. unfold settimeout. rewrite run_bind. cbn [log ret fd kind].
  match goal with |- context [udp_loop ?nst ?c ?h ?p ?pl ?k ?ds ?w1] =>
    pose proof (udp_loop_on_loopback l c h p pl eq_refl k ds w1 Hech) as H;
    unfold runs in H; destruct (udp_loop nst c h p pl k ds w1) as [r w'];
    destruct H as (evs & Htr & Hall) end.
  destruct r; cbv beta iota; rewrite ?sock_close_eq; cbv beta iota;
    cbn [trace after fst snd]; rewrite Htr;
    name_loopback_events; rewrite ?received_app; cbn [received flat_map snd];
    rewrite ?app_nil_r; exact Hall.
Qed.

(** On the loopback network with an empty payload: the datagram client
    sends one empty datagram, the server receives it and sends nothing, and
    the client's first receive gives up after the timeout. *)
Lemma empty_datagram_on_loopback (l : Link) (n : Z) (w : World Loopback) :
  (1 <= n)%Z -> (latency l < TIMEOUT)%N -> idle (net w) ->
  let run := measure_udp_transactions (loopback_step l) (server_host l) UDP_PORT
               [] n w in
  fst run = Raise SocketTimeout
  /\ new_events w (snd run)
     = [(now w, Opened (next_fd w) SOCK_DGRAM);
        (now w, TimeoutSet (next_fd w) TIMEOUT);
        (now w, Clock (seconds (now w)));
        ((now w + latency l)%N,
         Did (SendTo (next_fd w) [] (server_host l, UDP_PORT)) nothing);
        ((now w + latency l + TIMEOUT)%N,
         Did (RecvFrom (next_fd w) BUFSIZE) (Fails SocketTimeout));
        ((now w + latency l + TIMEOUT + latency l)%N,
         Did (Close (next_fd w)) nothing)]
  /\ trace (udp_thread (net (snd run)))
     = trace (udp_thread (net w))
       ++ [(now (udp_thread (net w)),
            Did (RecvFrom 0 BUFSIZE) (Returns [] (client_addr l)))].
Proof.
  intros Hn Hlat [Hconn Hech] run. subst run.
  destruct (Z.to_nat n) as [|k] eqn:En; [lia|].
  destruct w as [t0 fd0 [tcpth udpth conn up srv down ech] tr].
  cbn [net echoes connected] in Hech, Hconn. subst ech conn.
  apply N.ltb_lt in Hlat.
  unfold measure_udp_transactions. rewrite En. cbn [udp_loop].
  unfold new_events. eval_client.
  all: try (rewrite endpoint_eqb_refl in *; discriminate).
  all: try (cbv in Elt; discriminate).
  all: rewrite ?(proj1 (udp_turn_on_wire l [] udpth)); cbn [truthy]; eval_client.
  all: cbn [fst snd trace after net udp_thread now next_fd].
  all: rewrite ?(proj2 (udp_turn_on_wire l [] udpth)), ?take_nil; cbn [truthy].
  all: repeat split; try reflexivity.
  all: rewrite <- ?app_assoc, skipn_app, skipn_all, Nat.sub_diag; reflexivity.
Qed.

Lemma bytes_mul_nonpositive (b : bytes) (k : Z) : (k <= 0)%Z -> bytes_mul b k = [].
Proof.
  intros H. unfold bytes_mul. destruct (Z.to_nat k) eqn:E; [reflexivity | lia].
Qed.

(** On the loopback network with a payload size of zero (or less), [main]
    does not get to the datagram client: the stream client sends nothing,
    the server waits for data, and the first receive of the stream client
    gives up after the timeout, which ends the run. *)
Lemma empty_payload_run_on_loopback (l : Link) (payload_size n : Z)
    (w : World Loopback) :
  (payload_size <= 0)%Z -> (1 <= n)%Z -> (latency l < TIMEOUT)%N -> idle (net w) ->
  let run := main (loopback_step l) (server_host l) payload_size n w in
  let t := (now w + READY_DELAY)%N in
  fst run = Raise SocketTimeout
  /\ new_events w (snd run)
     = [(now w, Spawned TcpServer (server_host l, TCP_PORT));
        (now w, Spawned UdpServer (server_host l, UDP_PORT));
        (t, Did (Sleep READY_DELAY) nothing);
        (t, Clock (seconds t));
        (t, Opened (next_fd w) SOCK_STREAM);
        (t, TimeoutSet (next_fd w) TIMEOUT);
        (t, OptionSet (next_fd w) TCP_NODELAY);
        ((t + latency l)%N,
         Did (Connect (next_fd w) (server_host l, TCP_PORT)) nothing);
        ((t + latency l + latency l)%N, Did (SendAll (next_fd w) []) nothing);
        ((t + latency l + latency l + TIMEOUT)%N,
         Did (Recv (next_fd w) BUFSIZE) (Fails SocketTimeout));
        ((t + latency l + latency l + TIMEOUT + latency l)%N,
         Did (Close (next_fd w)) nothing)].
Proof.
  intros Hp Hn Hlat [Hconn Hech] run t. subst run t.
  destruct (Z.to_nat n) as [|k] eqn:En; [lia|].
  destruct w as [t0 fd0 [tcpth udpth conn up srv down ech] tr].
  cbn [net echoes connected] in Hech, Hconn. subst ech conn.
  apply N.ltb_lt in Hlat.
  unfold main, measure_tcp_transactions.
  rewrite (bytes_mul_nonpositive _ _ Hp), En. cbn [tcp_loop].
  unfold new_events. eval_client.
  all: try (rewrite endpoint_eqb_refl in *; discriminate).
  all: try (cbv in Elt; discriminate).
  all: try discriminate.
  all: cbn [fst snd trace after net now next_fd]; rewrite ?N.add_0_r.
  all: split; [reflexivity|].
  all: rewrite <- ?app_assoc, skipn_app, skipn_all, Nat.sub_diag; reflexivity.
Qed.

(** ** The clients do not look at what they receive *)

Section Garbled.

Variable NetSt : Type.
Variable net_step : NetSt -> call -> reply * NetSt.
Variable f : bytes -> bytes.

Lemma garbled_eq (st : NetSt) (c : call) :
  garbled f net_step st c
  = (match c, fst (net_step st c) with
     | Recv _ _, Reply el (Returns d p) => Reply el (Returns (f d) p)
     | RecvFrom _ _, Reply el (Returns d p) => Reply el (Returns (f d) p)
     | _, r => r
     end, snd (net_step st c)).
Proof.
  unfold garbled.
  destruct c; destruct (net_step st _) as [[? [? ?|?]|] ?]; reflexivity.
Qed.

Ltac eval_both :=
  rewrite ?run_bind, ?run_finally;
  rewrite ?sock_connect_eq, ?sock_sendall_eq, ?sock_sendto_eq, ?sock_recv_eq,
    ?sock_recvfrom_eq, ?sock_close_eq, ?sleep_eq;
  unfold answered; rewrite ?garbled_eq;
  cbn [net fd kind timeout after now next_fd trace stalled
       fst snd ret perf_counter socket_new log].

Ltac split_on_answer :=
  match goal with
  | |- context [net_step ?st ?c] =>
      let el := fresh "el" in let a := fresh "a" in let st' := fresh "st" in
      destruct (net_step st c) as [[el [? ?|?]|] st'];
      cbn [clip result_of fst snd]
  | |- context [if (?x <? ?y)%N then _ else _] => destruct (x <? y)%N
  end.

Ltac same := unfold same_run; cbn [fst snd now next_fd net after stalled];
  repeat split; reflexivity.

Lemma tcp_loop_garbled (host : string) (port : Z) (payload : bytes) :
  forall n ds t k st tr tr',
    same_run (tcp_loop net_step host port payload n ds (mkWorld t k st tr))
             (tcp_loop (garbled f net_step) host port payload n ds
                (mkWorld t k st tr')).
Proof.
  induction n as [|n IH]; intros ds t k st tr tr'; [same|].
  cbn [tcp_loop]. unfold with_socket, settimeout, setsockopt.
  repeat first [progress eval_both | split_on_answer].
  all: try solve [same].
  all: apply IH.
Qed.

Lemma udp_loop_garbled (c : socket) (host : string) (port : Z) (payload : bytes) :
  timeout c = Some TIMEOUT ->
  forall n ds t k st tr tr',
    same_run (udp_loop net_step c host port payload n ds (mkWorld t k st tr))
             (udp_loop (garbled f net_step) c host port payload n ds
                (mkWorld t k st tr')).
Proof.
  destruct c as [cfd ck ctm]. cbn [timeout]. intros ->.
  induction n as [|n IH]; intros ds t k st tr tr'; [same|].
  cbn [udp_loop].
  repeat first [progress eval_both | split_on_answer].
  all: try solve [same].
  all: apply IH.
Qed.

End Garbled.

Section GarbledMeasure.

Variable NetSt : Type.
Variable net_step : NetSt -> call -> reply * NetSt.
Variable f : bytes -> bytes.

Lemma measure_tcp_garbled (host : string) (port : Z) (payload : bytes) (n : Z)
    (w : World NetSt) :
  same_run (measure_tcp_transactions net_step host port payload n w)
           (measure_tcp_transactions (garbled f net_step) host port payload n w).
Proof. destruct w as [t k st tr]. apply tcp_loop_garbled. Qed.

Lemma measure_udp_garbled (host : string) (port : Z) (payload : bytes) (n : Z)
    (w : World NetSt) :
  same_run (measure_udp_transactions net_step host port payload n w)
           (measure_udp_transactions (garbled f net_step) host port payload n w).
Proof.
  destruct w as [t k st tr]. unfold measure_udp_transactions, with_socket, settimeout.
  repeat (progress (rewrite ?run_bind, ?run_finally;
                    cbn [socket_new log ret fd kind now next_fd net trace])).
  match goal with
  | |- same_run (match udp_loop _ ?c ?h ?p ?pl ?k ?ds (mkWorld ?t0 ?k0 ?st0 ?tr0) with _ => _ end) _ =>
      pose proof (udp_loop_garbled _ net_step f c h p pl eq_refl k ds t0 k0 st0 tr0 tr0) as H;
      destruct (udp_loop net_step c h p pl k ds (mkWorld t0 k0 st0 tr0))
        as [r1 [t1 k1 st1 tr1]];
      destruct (udp_loop (garbled f net_step) c h p pl k ds (mkWorld t0 k0 st0 tr0))
        as [r2 [t2 k2 st2 tr2]]
  end.
  unfold same_run in H. cbn [fst snd now next_fd net] in H.
  destruct H as (-> & -> & -> & ->).
  destruct r2; rewrite ?sock_close_eq, ?garbled_eq;
    cbn [net fd now next_fd trace fst snd after];
    unfold same_run; cbn [fst snd now next_fd net after]; repeat split; reflexivity.
Qed.

End GarbledMeasure.

(** C9: the measuring clients never look at the bytes a receive call
    returns.  On any network, and for any way [f] of altering the bytes that
    receive calls deliver (shortening them included), the measurement on the
    altered network ends as on the original one: the same outcome with the
    same durations, at the same time, leaving the network in the same state.
    In every run there is one duration (one complete pair of clock
    readings) for each receive call that returned, and these are the
    durations of a run that returns. *)
Theorem clients_ignore_received_bytes
    (NetSt : Type) (net_step : NetSt -> call -> reply * NetSt)
    (f : bytes -> bytes) (host : string) (port : Z) (payload : bytes) (n : Z)
    (w : World NetSt) :
  (let run := measure_tcp_transactions net_step host port payload n w in
   let evs := new_events w (snd run) in
   same_run run (measure_tcp_transactions (garbled f net_step) host port payload n w)
   /\ length (spans (clock_readings evs)) = length (received evs)
   /\ (forall ds, fst run = Ok ds -> ds = spans (clock_readings evs)))
  /\ (let run := measure_udp_transactions net_step host port payload n w in
      let evs := new_events w (snd run) in
      same_run run (measure_udp_transactions (garbled f net_step) host port payload n w)
      /\ length (spans (clock_readings evs)) = length (received evs)
      /\ (forall ds, fst run = Ok ds -> ds = spans (clock_readings evs))).
Proof.
  split; intros run evs.
  - pose proof (runs_new_events _ _ _ (measure_tcp_run _ net_step host port payload n w))
      as H. fold run in H. fold evs in H.
    split; [apply measure_tcp_garbled|].
    split; [symmetry; exact (run_received H)|].
    intros ds E. rewrite E in H. now destruct (run_result H eq_refl) as (-> & _).
  - pose proof (runs_new_events _ _ _ (measure_udp_run _ net_step host port payload n w))
      as H. fold run in H. fold evs in H.
    split; [apply measure_udp_garbled|].
    split; [symmetry; exact (run_received H)|].
    intros ds E. rewrite E in H. now destruct (run_result H eq_refl) as (-> & _).
Qed.

(** ** Successful runs on the loopback network *)

Ltac eval_ready :=
  unfold with_socket, settimeout, setsockopt;
  repeat first [ progress eval_head
               | progress rewrite ?endpoint_eqb_refl, ?Nat.eqb_refl
               | split_on_condition ].

Ltac round_on_loopback IH :=
  match goal with |- let '(r, w') := ?f ?w1 in _ =>
    match f with context [?ds0 ++ [?dt]] =>
      let H := fresh "H" in let r := fresh "r" in let w' := fresh "w'" in
      pose proof (IH (ds0 ++ [dt]) w1) as H;
      unfold runs in H; destruct (f w1) as [r w']
    end
  end.

Lemma tcp_loop_succeeds (l : Link) (payload : bytes) :
  truthy payload = true -> (latency l <? TIMEOUT)%N = true ->
  forall n ds w,
    runs (tcp_loop (loopback_step l) (server_host l) TCP_PORT payload n ds) w
         (fun evs r _ =>
            is_ok r = true
            /\ sent evs = repeat payload n
            /\ received evs = repeat (one_read l payload) n).
Proof.
  intros Etr Elt. induction n as [|k IH]; intros ds w.
  - unfold runs. cbn [tcp_loop ret]. exists []. rewrite app_nil_r.
    repeat split; reflexivity.
  - destruct w as [t0 fd0 [tcpth udpth conn up srv down ech] tr].
    unfold runs. cbn [tcp_loop]. eval_ready.
    round_on_loopback IH. destruct H as (evs & Htr & Hok & Hs & Hr).
    rewrite Htr. name_loopback_events.
    unfold sent in Hs. unfold received in Hr.
    rewrite Hs, Hr. split; [exact Hok|]. split; [reflexivity|].
    cbn [repeat]. f_equal.
    rewrite (proj1 (tcp_turn_on_wire l (chunk_of l payload) false tcpth
                      (eq_trans (truthy_chunk l payload) Etr))).
    apply one_read_twice.
Qed.



(** ** Loops that never return, turn by turn *)

Section Forever.

Variable NetSt : Type.
Variable net_step : NetSt -> call -> reply * NetSt.

(** What holds of every turn holds of the loop, when it holds of the empty
    log, of a turn that does not complete, and of a completed turn followed
    by more of the loop. *)
Lemma forever_runs (body : M NetSt unit) (T L : list event -> outcome unit -> Prop) :
  (forall w, runs body w (fun evs r _ => T evs r)) ->
  L [] Pending ->
  (forall evs r, r <> Ok tt -> T evs r -> L evs r) ->
  (forall evs1 evs2 r, T evs1 (Ok tt) -> L evs2 r -> L (evs1 ++ evs2) r) ->
  forall fuel w, runs (forever fuel body) w (fun evs r _ => L evs r).
Proof.
  intros Hbody H0 Hend Hnext. induction fuel as [|k IH]; intros w.
  - unfold runs. cbn [forever]. exists []. rewrite app_nil_r. split; [reflexivity | exact H0].
  - unfold runs. rewrite run_forever.
    pose proof (Hbody w) as Hb. unfold runs in Hb.
    destruct (body w) as [r1 w1]. destruct Hb as (evs1 & Htr1 & HT).
    destruct r1 as [[]| e |].
    + pose proof (IH w1) as Hl. unfold runs in Hl.
      destruct (forever k body w1) as [r2 w2]. destruct Hl as (evs2 & Htr2 & HL).
      exists (evs1 ++ evs2). rewrite Htr2, Htr1, app_assoc.
      split; [reflexivity | now apply Hnext].
    + exists evs1. split; [exact Htr1 | apply Hend; [discriminate | exact HT]].
    + exists evs1. split; [exact Htr1 | apply Hend; [discriminate | exact HT]].
Qed.

(** A read hands over no more than was asked for. *)
Lemma recv_cases_within (s : socket) (n : N) (w : World NetSt) :
  exists st,
    (exists t an, (now w <= t)%N
       /\ sock_recv net_step s n w
          = (result_of payload_of an, after w t st (Did (Recv (fd s) n) an))
       /\ within n (payload_of an))
    \/ (timeout s = None /\ sock_recv net_step s n w = (Pending, stalled w st)).
Proof.
  destruct (call_cases _ net_step payload_of (timeout s) (Recv (fd s) n) w)
    as (st & [(t & an & Ht & Hb & Hc) | H]); exists st; [left | right; exact H].
  exists t, an. split; [exact Ht|]. split; [exact Hb|].
  destruct an as [d p|e]; cbn [clip payload_of] in *.
  - injection Hc as Hc. rewrite <- Hc. apply take_length.
  - unfold within. cbn. lia.
Qed.

Lemma recvfrom_cases_within (s : socket) (n : N) (w : World NetSt) :
  exists st,
    (exists t an, (now w <= t)%N
       /\ sock_recvfrom net_step s n w
          = (result_of (fun a => (payload_of a, peer_of a)) an,
             after w t st (Did (RecvFrom (fd s) n) an))
       /\ within n (payload_of an))
    \/ (timeout s = None /\ sock_recvfrom net_step s n w = (Pending, stalled w st)).
Proof.
  destruct (call_cases _ net_step (fun a => (payload_of a, peer_of a)) (timeout s)
              (RecvFrom (fd s) n) w)
    as (st & [(t & an & Ht & Hb & Hc) | H]); exists st; [left | right; exact H].
  exists t, an. split; [exact Ht|]. split; [exact Hb|].
  destruct an as [d p|e]; cbn [clip payload_of] in *.
  - injection Hc as Hc. rewrite <- Hc. apply take_length.
  - unfold within. cbn. lia.
Qed.

Ltac step_within lem :=
  let st := fresh "st" in let t := fresh "t" in let a := fresh "a" in
  let Ht := fresh "Ht" in let Hb := fresh "Hb" in let Hn := fresh "Hn" in
  let Hlen := fresh "Hlen" in
  destruct lem as (st & [(t & a & Ht & Hb & Hlen) | (Hn & Hb)]);
  [rewrite Hb; clear Hb; destruct a as [? ? | ?]; cbn [result_of payload_of] in *
  | try congruence; try (cbn in Hn; congruence); rewrite Hb; clear Hb].

Ltac serve_within :=
  first
    [ progress (unfold tcp_serve_one, tcp_handle, udp_serve_one, with_socket;
                rewrite ?run_bind, ?run_finally, ?run_try;
                cbn [ret]; tidy)
    | match goal with
      | |- context [sock_accept ?nst ?s ?w] =>
          step_with (accept_cases _ nst s w); tidy
      | |- context [sock_recv ?nst ?s ?n ?w] =>
          step_within (recv_cases_within s n w); tidy
      | |- context [sock_recvfrom ?nst ?s ?n ?w] =>
          step_within (recvfrom_cases_within s n w); tidy
      | |- context [if is_ConnectionError ?e then _ else _] =>
          let E := fresh "Ece" in destruct (is_ConnectionError e) eqn:E; tidy
      | |- context [truthy ?d] =>
          destruct d; cbn [truthy]; tidy
      end
    | step_call; tidy ].

Ltac name_turn_events :=
  first [ name_events
        | exists []; rewrite app_nil_r; split; [reflexivity|] ].

Ltac turn_facts :=
  cbn [stream_reads stream_writes dgram_reads dgram_writes opened closed
       flat_map filter is_accept app fst snd length nothing].

Lemma tcp_turn_connections (s : socket) (w : World NetSt) :
  runs (tcp_serve_one net_step s) w (fun evs r _ => connections evs r).
Proof.
  unfold runs. repeat serve_within.
  all: name_turn_events; constructor; turn_facts.
  all: try solve [ repeat constructor; assumption | lia
                 | exists []; repeat split; cbn; intros; congruence || lia
                 | eexists [_]; repeat split; cbn; intros; congruence || lia ].
Qed.


Lemma stream_reads_app (evs1 evs2 : list event) :
  stream_reads (evs1 ++ evs2) = stream_reads evs1 ++ stream_reads evs2.
Proof. apply flat_map_app. Qed.

Lemma stream_writes_app (evs1 evs2 : list event) :
  stream_writes (evs1 ++ evs2) = stream_writes evs1 ++ stream_writes evs2.
Proof. apply flat_map_app. Qed.



Lemma tcp_loop_connections (s : socket) (fuel : nat) (w : World NetSt) :
  runs (forever fuel (tcp_serve_one net_step s)) w (fun evs r _ => connections evs r).
Proof.
  apply (forever_runs (tcp_serve_one net_step s) connections connections).
  - intros w0. apply tcp_turn_connections.
  - constructor; turn_facts; try constructor.
    exists []. repeat split; cbn; auto.
  - auto.
  - intros evs1 evs2 r [B1 R1 W1 (rest1 & C1 & _ & E1)] [B2 R2 W2 (rest2 & C2 & L2 & E2)].
    rewrite (E1 ltac:(discriminate)), app_nil_r in C1.
    constructor;
      rewrite ?stream_reads_app, ?stream_writes_app, ?filter_app, ?opened_app,
        ?closed_app, ?length_app.
    + apply Forall_app. split; assumption.
    + lia.
    + lia.
    + exists rest2. rewrite C1, C2, app_assoc. auto.
Qed.


Ltac fatal_facts :=
  unfold fatal_failures;
  repeat (cbn [flat_map after_fatal forallb andb app raised nothing snd negb];
          unfold is_fatal, is_close; cbn [snd negb];
          repeat match goal with
                 | H : is_ConnectionError _ = _ |- _ => rewrite H
                 end).

(** One turn of the accept loop raises exactly when a failure occurred that
    the loop does not survive, and raises the exception of that failure;
    after it the connection is closed and nothing else is done. *)
Lemma tcp_turn_fatal (s : socket) (w : World NetSt) :
  runs (tcp_serve_one net_step s) w
       (fun evs r _ =>
          fatal_failures evs = raised r
          /\ forallb is_close (after_fatal evs) = true).
Proof.
  unfold runs. repeat serve.
  all: name_turn_events; fatal_facts; split; reflexivity.
Qed.

Lemma fatal_failures_app (evs1 evs2 : list event) :
  fatal_failures (evs1 ++ evs2) = fatal_failures evs1 ++ fatal_failures evs2.
Proof. apply flat_map_app. Qed.

Lemma fatal_failures_none (evs : list event) :
  fatal_failures evs = [] <-> existsb is_fatal evs = false.
Proof.
  induction evs as [|[t a] evs IH]; [split; reflexivity|].
  unfold fatal_failures in *. cbn [flat_map existsb].
  destruct (is_fatal (t, a)) eqn:E; cbn [orb].
  - unfold is_fatal in E. cbn [snd] in *.
    destruct a as [| | |c [d p|e]| | | | | |]; try discriminate E;
      try (destruct c; discriminate E).
    split; intros H; discriminate H.
  - exact IH.
Qed.

Lemma after_fatal_app (evs1 evs2 : list event) :
  existsb is_fatal evs1 = false -> after_fatal (evs1 ++ evs2) = after_fatal evs2.
Proof.
  induction evs1 as [|ev evs1 IH]; [reflexivity|].
  cbn [existsb app after_fatal]. intros H. apply orb_false_elim in H as [H1 H2].
  rewrite H1. exact (IH H2).
Qed.

Lemma tcp_loop_fatal (s : socket) (fuel : nat) (w : World NetSt) :
  runs (forever fuel (tcp_serve_one net_step s)) w
       (fun evs r _ =>
          fatal_failures evs = raised r
          /\ forallb is_close (after_fatal evs) = true).
Proof.
  apply (forever_runs (tcp_serve_one net_step s)
           (fun evs r => fatal_failures evs = raised r
                         /\ forallb is_close (after_fatal evs) = true)
           (fun evs r => fatal_failures evs = raised r
                         /\ forallb is_close (after_fatal evs) = true)).
  - intros w0. apply tcp_turn_fatal.
  - split; reflexivity.
  - auto.
  - intros evs1 evs2 r (F1 & _) (F2 & A2).
    rewrite fatal_failures_app, F1, F2.
    rewrite (after_fatal_app evs1 evs2 (proj1 (fatal_failures_none evs1) F1)).
    split; [reflexivity | exact A2].
Qed.

End Forever.


(** ** Echo fidelity *)

Lemma bytes_mul_length (b : bytes) (k : Z) :
  length (bytes_mul b k) = (Z.to_nat k * length b)%nat.
Proof.
  unfold bytes_mul. induction (Z.to_nat k) as [|m IH]; [reflexivity|].
  cbn [repeat concat]. rewrite length_app, IH. reflexivity.
Qed.

Lemma bytes_mul_truthy (b : bytes) (k : Z) :
  (0 < k)%Z -> truthy b = true -> truthy (bytes_mul b k) = true.
Proof.
  intros Hk Hb. unfold bytes_mul.
  destruct (Z.to_nat k) as [|m] eqn:E; [lia|].
  cbn [repeat concat]. destruct b; [discriminate | reflexivity].
Qed.

Lemma one_read_short (l : Link) (payload : bytes) :
  (N.of_nat (length payload) <= N.min BUFSIZE (Npos (segment l)))%N ->
  one_read l payload = payload.
Proof. apply take_all. Qed.

(** C4, amended: both servers echo verbatim, and the clients get back what
    one read delivers.  On any network, the non-empty reads of the stream
    server, each with its connection, are its writes, in order (all but
    possibly the last read, whose write may not have come back); likewise
    the non-empty datagrams of the datagram server, each with the address
    it came from, are the datagrams it sends and the addresses it sends them
    to.  On the loopback network, where these servers answer, every
    datagram the datagram client receives is the payload; the stream client
    receives in every transaction what one read delivers of the payload
    (its first 65536 bytes at most, and no more than the link hands over at
    once), which is the payload when the payload is no longer than that. *)
Theorem echo_is_verbatim_within_one_read
    (NetSt : Type) (net_step : NetSt -> call -> reply * NetSt)
    (s : socket) (fuel : nat) (w : World NetSt)
    (l : Link) (host : string) (port : Z) (payload : bytes) (n : Z)
    (v : World Loopback) :
  echoes (net v) = [] ->
  (let evs := new_events w (snd (forever fuel (tcp_serve_one net_step s) w)) in
   exists rest,
     filter nonempty_read (stream_reads evs) = stream_writes evs ++ rest
     /\ (length rest <= 1)%nat)
  /\ (let evs := new_events w (snd (forever fuel (udp_serve_one net_step s) w)) in
      exists rest,
        filter nonempty_dgram (dgram_reads evs) = dgram_writes evs ++ rest
        /\ (length rest <= 1)%nat)
  /\ (let evs := new_events v
                   (snd (measure_tcp_transactions (loopback_step l) host port
                           payload n v)) in
      Forall (eq (one_read l payload)) (received evs)
      /\ ((N.of_nat (length payload) <= N.min BUFSIZE (Npos (segment l)))%N ->
          Forall (eq payload) (received evs)))
  /\ (let evs := new_events v
                   (snd (measure_udp_transactions (loopback_step l) host port
                           payload n v)) in
      Forall (eq payload) (received evs)).
Proof.
  intros Hech.
  split; [exact (tsr_echo (runs_new_events _ _ _ (tcp_server_loop _ net_step s fuel w)))|].
  split; [exact (usr_echo (runs_new_events _ _ _ (udp_server_loop _ net_step s fuel w)))|].
  split; [|exact (measure_udp_on_loopback l host port payload n v Hech)].
  intros evs. pose proof (measure_tcp_on_loopback l host port payload n v) as H.
  fold evs in H. split; [exact H|].
  intros Hlen. now rewrite (one_read_short l payload Hlen) in H.
Qed.

Lemma echo_is_verbatim_within_one_read_witness :
  Forall (eq (bytes_mul ["A"%byte] DEFAULT_PAYLOAD))
    (received (new_events (boot localhost)
       (snd (measure_udp_transactions (loopback_step localhost) DEFAULT_HOST
               UDP_PORT (bytes_mul ["A"%byte] DEFAULT_PAYLOAD) 3 (boot localhost))))).
Proof.
  assert (echoes (net (boot localhost)) = []) as H by reflexivity.
  exact (proj2 (proj2 (proj2
           (echo_is_verbatim_within_one_read unit (failing_reads OSError)
              (listener SOCK_STREAM) 2 (fresh_world tt) localhost DEFAULT_HOST
              UDP_PORT (bytes_mul ["A"%byte] DEFAULT_PAYLOAD) 3 (boot localhost) H)))).
Defined.

(** C4 as it stands does not hold for the stream client: with a payload of
    65537 bytes on the loopback network the transaction succeeds (the
    measurement returns its duration), and what the client received is not
    what it sent. *)
Lemma long_payload_comes_back_cut :
  let payload := bytes_mul ["A"%byte] 65537 in
  let run := measure_tcp_transactions (loopback_step localhost) DEFAULT_HOST
               TCP_PORT payload 1 (boot localhost) in
  is_ok (fst run) = true
  /\ sent (new_events (boot localhost) (snd run)) = [payload]
  /\ exists d, received (new_events (boot localhost) (snd run)) = [d]
               /\ d <> payload.
Proof.
  intros payload run.
  assert (truthy payload = true) as Etr
    by (apply bytes_mul_truthy; [lia | reflexivity]).
  pose proof (runs_new_events _ _ _
                (tcp_loop_succeeds localhost payload Etr eq_refl 1 [] (boot localhost)))
    as (Hok & Hs & Hr).
  split; [exact Hok|]. split; [exact Hs|].
  exists (one_read localhost payload). split; [exact Hr|].
  intros E. apply (f_equal (fun d => N.of_nat (length d))) in E.
  pose proof (take_length (N.min BUFSIZE (Npos (segment localhost))) payload) as Hle.
  fold (one_read localhost payload) in Hle. rewrite E in Hle.
  unfold payload in Hle. rewrite bytes_mul_length in Hle.
  cbn [length segment localhost] in Hle. unfold BUFSIZE in Hle. lia.
Qed.

(** ** The accept loop and the failures of a connection *)

Lemma fatal_failure_raises (evs : list event) (r : outcome unit) :
  fatal_failures evs = raised r -> existsb is_fatal evs = true ->
  exists e, r = Raise e.
Proof.
  intros F H. destruct r as [[]| e |]; [| exists e; reflexivity |];
    apply fatal_failures_none in F; congruence.
Qed.

Lemma connections_closed (evs : list event) (r : outcome unit) :
  connections evs r -> r <> Pending -> opened evs = closed evs.
Proof.
  intros [_ _ _ (rest & E & _ & Hr)] H. rewrite (Hr H), app_nil_r in E. exact E.
Qed.

(** C5, amended: a connection that yields a zero-byte read is closed with
    nothing written, and the turn of the accept loop ends normally, so that
    the loop goes on to the next accept; so does a turn in which a call on
    the connection raised a [ConnectionError], and the connection is closed
    then too.  No other failure is survived: when the accept fails, or a
    call on the connection raises an exception that is not a
    [ConnectionError], the turn raises that exception, and the loop ends
    with it, with nothing done after the failure but the closing of the
    connection; and a turn, or the loop, raises only in this way.  The
    loop itself never returns: after any number of turns it is still
    running unless such a failure occurred.  Whenever a turn or the loop is
    over, every socket it opened for a connection is closed. *)
Theorem accept_loop_survives_connection_errors_only
    (NetSt : Type) (net_step : NetSt -> call -> reply * NetSt)
    (s : socket) (fuel : nat) (w : World NetSt) :
  (let run := tcp_serve_one net_step s w in
   let evs := new_events w (snd run) in
   (existsb is_zero_read evs = true -> fst run = Ok tt /\ stream_writes evs = [])
   /\ (failures evs <> [] -> existsb is_fatal evs = false -> fst run = Ok tt)
   /\ (forall e, fst run = Raise e ->
       existsb is_fatal evs = true /\ failures evs = [e])
   /\ (existsb is_fatal evs = true -> exists e, fst run = Raise e)
   /\ fatal_failures evs = raised (fst run)
   /\ forallb is_close (after_fatal evs) = true
   /\ (fst run <> Pending -> opened evs = closed evs))
  /\ (let run := forever fuel (tcp_serve_one net_step s) w in
      let evs := new_events w (snd run) in
      zero_reads_closed evs
      /\ fst run <> Ok tt
      /\ (existsb is_fatal evs = false -> fst run = Pending)
      /\ (forall e, fst run = Raise e -> existsb is_fatal evs = true)
      /\ (existsb is_fatal evs = true -> exists e, fst run = Raise e)
      /\ fatal_failures evs = raised (fst run)
      /\ forallb is_close (after_fatal evs) = true
      /\ (fst run <> Pending -> opened evs = closed evs)).
Proof.
  split; intros run evs.
  - pose proof (runs_new_events _ _ _ (tcp_turn_run _ net_step s w)) as [H1 H2 H3].
    pose proof (runs_new_events _ _ _ (tcp_turn_fatal _ net_step s w)) as (F & A).
    pose proof (runs_new_events _ _ _ (tcp_turn_connections _ net_step s w)) as C.
    fold run in H1, H2, H3, F, A, C. fold evs in H1, H2, H3, F, A, C.
    do 3 (split; [assumption|]).
    split; [exact (fatal_failure_raises _ _ F)|].
    do 2 (split; [assumption|]).
    exact (connections_closed _ _ C).
  - pose proof (runs_new_events _ _ _ (tcp_server_loop _ net_step s fuel w))
      as [H1 H2 H3 H4 H5].
    pose proof (runs_new_events _ _ _ (tcp_loop_fatal _ net_step s fuel w)) as (F & A).
    pose proof (runs_new_events _ _ _ (tcp_loop_connections _ net_step s fuel w)) as C.
    fold run in H1, H2, H3, H4, H5, F, A, C. fold evs in H1, H2, H3, H4, H5, F, A, C.
    split; [exact H3|]. split; [exact H1|]. split; [exact H4|]. split; [exact H5|].
    split; [exact (fatal_failure_raises _ _ F)|].
    do 2 (split; [assumption|]).
    exact (connections_closed _ _ C).
Qed.

(** C5 as it stands does not hold: a connection on which the read raises
    an [OSError] that is not a [ConnectionError] ends the accept loop, and
    with it the server, at the first connection. *)
Lemma read_error_ends_accept_loop :
  let run := tcp_transaction_server (failing_reads OSError) DEFAULT_HOST TCP_PORT 3
               (fresh_world tt) in
  fst run = Raise OSError
  /\ map snd (trace (snd run))
     = [Opened 0 SOCK_STREAM; OptionSet 0 SO_REUSEADDR;
        Did (Bind 0 (DEFAULT_HOST, TCP_PORT)) nothing;
        Did (Listen 0 128) nothing;
        Did (Accept 0) nothing; Opened 1 SOCK_STREAM;
        Did (Recv 1 BUFSIZE) (Fails OSError);
        Did (Close 1) nothing; Did (Close 0) nothing].
Proof. vm_compute. split; reflexivity. Qed.

(** ** Empty payloads *)

(** C10, amended: the datagram server never answers an empty datagram: on
    any network, in the log of its loop the call after the receipt of an
    empty datagram is not a send.  On the loopback network the datagram
    client, called with an empty payload, sends one empty datagram, which
    the server receives and does not answer, and the client's first receive
    gives up after the timeout of two seconds, which ends the measurement
    with that exception.  A run of [main] with a payload size of zero does
    not get that far: the first receive of the stream client gives up in the
    same way (the stream server waits for data that never comes), [main]
    ends with that exception, and no datagram socket is opened and no
    datagram sent. *)
Theorem empty_datagram_is_never_echoed
    (NetSt : Type) (net_step : NetSt -> call -> reply * NetSt)
    (s : socket) (fuel : nat) (w : World NetSt)
    (l : Link) (payload_size n : Z) (v : World Loopback) :
  (payload_size <= 0)%Z -> (1 <= n)%Z -> (latency l < TIMEOUT)%N -> idle (net v) ->
  (let evs := new_events w (snd (forever fuel (udp_serve_one net_step s) w)) in
   empty_dgrams_unanswered evs)
  /\ (let run := measure_udp_transactions (loopback_step l) (server_host l) UDP_PORT
                   (bytes_mul ["A"%byte] payload_size) n v in
      fst run = Raise SocketTimeout
      /\ new_events v (snd run)
         = [(now v, Opened (next_fd v) SOCK_DGRAM);
            (now v, TimeoutSet (next_fd v) TIMEOUT);
            (now v, Clock (seconds (now v)));
            ((now v + latency l)%N,
             Did (SendTo (next_fd v) [] (server_host l, UDP_PORT)) nothing);
            ((now v + latency l + TIMEOUT)%N,
             Did (RecvFrom (next_fd v) BUFSIZE) (Fails SocketTimeout));
            ((now v + latency l + TIMEOUT + latency l)%N,
             Did (Close (next_fd v)) nothing)]
      /\ trace (udp_thread (net (snd run)))
         = trace (udp_thread (net v))
           ++ [(now (udp_thread (net v)),
                Did (RecvFrom 0 BUFSIZE) (Returns [] (client_addr l)))])
  /\ (let run := main (loopback_step l) (server_host l) payload_size n v in
      fst run = Raise SocketTimeout
      /\ existsb is_recv_timeout (new_events v (snd run)) = true
      /\ existsb is_dgram_call (new_events v (snd run)) = false).
Proof.
  intros Hp Hn Hlat Hidle.
  split; [exact (usr_silent (runs_new_events _ _ _ (udp_server_loop _ net_step s fuel w)))|].
  split.
  - rewrite (bytes_mul_nonpositive _ _ Hp).
    exact (empty_datagram_on_loopback l n v Hn Hlat Hidle).
  - destruct (empty_payload_run_on_loopback l payload_size n v Hp Hn Hlat Hidle)
      as (Er & Eevs).
    intros run. split; [exact Er|]. fold run in Eevs. rewrite Eevs.
    split; reflexivity.
Qed.

Lemma empty_datagram_is_never_echoed_witness :
  fst (measure_udp_transactions (loopback_step localhost) DEFAULT_HOST UDP_PORT
         (bytes_mul ["A"%byte] 0) 1 (boot localhost))
  = Raise SocketTimeout.
Proof.
  assert (0 <= 0)%Z as H1 by lia.
  assert (1 <= 1)%Z as H2 by lia.
  assert (latency localhost < TIMEOUT)%N as H3 by reflexivity.
  assert (idle (net (boot localhost))) as H4 by (split; reflexivity).
  exact (proj1 (proj1 (proj2
           (empty_datagram_is_never_echoed Wire wire_step (listener SOCK_DGRAM) 1
              (fresh_world (mkWire [[]] false [] (DEFAULT_HOST, 40000%Z)))
              localhost 0 1 (boot localhost) H1 H2 H3 H4)))).
Defined.

(** C10 as it stands does not hold: a run with a payload size of zero sends
    no datagram at all.  On the loopback network [main] ends with the
    timeout of the stream client's first receive, before the datagram client
    is called. *)
Lemma empty_payload_sends_no_datagram :
  let run := main (loopback_step localhost) DEFAULT_HOST 0 REPEAT (boot localhost) in
  fst run = Raise SocketTimeout
  /\ existsb is_recv_timeout (trace (snd run)) = true
  /\ existsb is_empty_datagram_sent (trace (snd run)) = false
  /\ existsb is_dgram_call (trace (snd run)) = false.
Proof. vm_compute. repeat split; reflexivity. Qed.

(** ** The claims at concrete inputs *)

Lemma measure_returns_all_durations_witness :
  exists ds w',
    measure_tcp_transactions (loopback_step localhost) DEFAULT_HOST TCP_PORT
      (bytes_mul ["A"%byte] DEFAULT_PAYLOAD) 3 (boot localhost) = (Ok ds, w')
    /\ Z.of_nat (length ds) = 3%Z /\ Forall (Qcle 0) ds.
Proof.
  assert (1 <= 3)%Z as Hn by lia.
  destruct (measure_tcp_transactions (loopback_step localhost) DEFAULT_HOST TCP_PORT
              (bytes_mul ["A"%byte] DEFAULT_PAYLOAD) 3 (boot localhost))
    as [r w'] eqn:E.
  assert (is_ok r = true) as Hok.
  { apply (f_equal fst) in E. cbn [fst] in E. rewrite <- E. vm_compute. reflexivity. }
  destruct r as [ds| |]; try discriminate Hok.
  exists ds, w'. split; [reflexivity|].
  destruct (proj1 (measure_returns_all_durations Loopback (loopback_step localhost)
                     DEFAULT_HOST TCP_PORT (bytes_mul ["A"%byte] DEFAULT_PAYLOAD) 3 Hn)
              (boot localhost) ds w' E) as (H1 & H2 & _).
  split; assumption.
Defined.

Lemma summary_line_format_witness :
  exists m md sd,
    stats.mean [ms 1; ms 3] = Ok m /\ stats.median [ms 1; ms 3] = Ok md
    /\ stats.pstdev [ms 1; ms 3] = Ok sd
    /\ summarize "TCP per-transaction" [ms 1; ms 3]
       = Ok (summary_line "TCP per-transaction" (format_e6 m) (format_e6 md)
               (format_e6 sd) (length [ms 1; ms 3]))
    /\ is_sci (format_e6 m) = true /\ is_sci (format_e6 md) = true
    /\ is_sci (format_e6 sd) = true.
Proof.
  assert ([ms 1; ms 3] <> []) as Hne by discriminate.
  exact (proj1 (summary_line_format "TCP per-transaction" [ms 1; ms 3] Hne)).
Defined.

(** * More of the benchmark *)

(** ** What the clients send, open and close *)

Section ClientLogs.

Variable NetSt : Type.
Variable net_step : NetSt -> call -> reply * NetSt.






End ClientLogs.




(** ** The summary and the plots on empty sequences *)


Section Plots.

Variable NetSt : Type.


End Plots.


Section EmptyRuns.

Variable NetSt : Type.
Variable net_step : NetSt -> call -> reply * NetSt.


End EmptyRuns.



(** ** The servers from start to end *)

Section WholeServers.

Variable NetSt : Type.
Variable net_step : NetSt -> call -> reply * NetSt.




Lemma existsb_is_accept_app (evs1 evs2 : list event) :
  existsb is_accept (evs1 ++ evs2) = (existsb is_accept evs1 || existsb is_accept evs2)%bool.
Proof. apply existsb_app. Qed.



End WholeServers.






(** ** The benchmark on the loopback network *)






